(** * deflix-stremio: the server's main package, checked against its specification

    The development follows [main.go]: the command-line flags and the
    package-level variables initialised from them, the four fastcache
    stores with their snapshot files, the router wiring, the hourly
    persistence cycle and the shutdown sequence.  The components of the
    stream-resolution pipeline that [main.go] only calls (the search
    aggregator, the redirect resolver, the debrid client) are modelled
    from the specification, each in a module of its own. *)

From Stdlib Require Import ZArith Ascii String List Bool Lia Sorting.Permutation.
From stdpp Require Import base decidable option list gmap strings pretty sorting.

Local Open Scope Z_scope.
Local Open Scope string_scope.

#[local] Set Warnings "-clear-no-such-hyp".

(** ** Strings, as the Go standard library treats them *)

Module GoStrings.

(** [strings.HasSuffix]. *)
Definition HasSuffix (s suffix : string) : bool :=
  let n := String.length s in
  let k := String.length suffix in
  (k <=? n)%nat && String.eqb (String.substring (n - k) k s) suffix.

(** [strings.TrimSuffix]: [s] without the trailing [suffix], or [s]
    itself when it does not end with it. *)
Definition TrimSuffix (s suffix : string) : string :=
  if HasSuffix s suffix
  then String.substring 0 (String.length s - String.length suffix) s
  else s.

(** [strings.Split] on a one-byte separator. *)
Fixpoint Split_go (sep : ascii) (s : string) (cur : string) : list string :=
  match s with
  | EmptyString => [String.rev cur]
  | String c rest =>
      if Ascii.eqb c sep
      then String.rev cur :: Split_go sep rest EmptyString
      else Split_go sep rest (String c cur)
  end.

Definition Split (s : string) (sep : ascii) : list string :=
  Split_go sep s EmptyString.

(** [strconv.Itoa]. *)
Definition Itoa (n : Z) : string := pretty n.

(** [path.Clean] on a rooted path: empty elements and [.] are dropped,
    [..] drops the element before it, nothing at the root; what is left
    is joined with single slashes. *)
Fixpoint clean_elements (elems kept : list string) : list string :=
  match elems with
  | [] => rev kept
  | e :: elems =>
      if String.eqb e "" then clean_elements elems kept
      else if String.eqb e "." then clean_elements elems kept
      else if String.eqb e ".." then clean_elements elems (tl kept)
      else clean_elements elems (e :: kept)
  end.

Definition rooted (elems : list string) : string :=
  match elems with
  | [] => "/"
  | _ => fold_right (fun e rest => "/" +:+ e +:+ rest) "" elems
  end.

Definition Clean (p : string) : string :=
  rooted (clean_elements (Split p "/"%char) []).

End GoStrings.

(** ** The [flag] package: a flag set holding pointers to flag values *)

Module Flag.

(** A flag's value lives behind a pointer; [flag.String] and [flag.Int]
    return that pointer. *)
Inductive value : Type :=
| VString (s : string)
| VInt (n : Z).

Inductive kind : Type := KString | KInt.

Record Flag : Type := mkFlag { f_ptr : nat; f_kind : kind }.

Record FlagSet : Type := mkFlagSet {
  heap : gmap nat value;        (* the cells the flag pointers point to *)
  formal : gmap string Flag;    (* the defined flags, by name *)
  next_ptr : nat;
}.

(** [flag.CommandLine] before any flag is defined. *)
Definition CommandLine : FlagSet :=
  {| heap := ∅; formal := ∅; next_ptr := 0%nat |}.

Definition define (k : kind) (name : string) (v : value) (fs : FlagSet)
  : nat * FlagSet :=
  let p := next_ptr fs in
  (p, {| heap := <[p := v]> (heap fs);
         formal := <[name := mkFlag p k]> (formal fs);
         next_ptr := S p |}).

(** [*p] for a [*string] and for an [*int]. *)
Definition deref_string (p : nat) (fs : FlagSet) : string :=
  match heap fs !! p with Some (VString s) => s | _ => "" end.

Definition deref_int (p : nat) (fs : FlagSet) : Z :=
  match heap fs !! p with Some (VInt n) => n | _ => 0 end.

Section Parsing.

(** [strconv.ParseInt(s, 0, strconv.IntSize)], which [intValue.Set]
    calls; [None] is a parse error. *)
Variable ParseInt : string -> option Z.

(** [Value.Set]: writes through the flag's pointer. *)
Definition Set_ (f : Flag) (s : string) (fs : FlagSet) : option FlagSet :=
  match f_kind f with
  | KString =>
      Some {| heap := <[f_ptr f := VString s]> (heap fs);
              formal := formal fs; next_ptr := next_ptr fs |}
  | KInt =>
      match ParseInt s with
      | Some n =>
          Some {| heap := <[f_ptr f := VInt n]> (heap fs);
                  formal := formal fs; next_ptr := next_ptr fs |}
      | None => None
      end
  end.

(** The name of a flag argument and its [=value] part, if any: the
    first ['='] after the first byte splits them. *)
Fixpoint cut_equals (s : string) : string * option string :=
  match s with
  | EmptyString => (EmptyString, None)
  | String c rest =>
      if Ascii.eqb c "="%char then (EmptyString, Some rest)
      else let '(n, v) := cut_equals rest in (String c n, v)
  end.

Definition name_and_value (name : string) : string * option string :=
  match name with
  | EmptyString => (EmptyString, None)
  | String c rest => let '(n, v) := cut_equals rest in (String c n, v)
  end.

Inductive parse_one : Type :=
| Seen (fs : FlagSet) (rest : list string)
| Stop (rest : list string)
| ErrHelp
| Failf.

(** [FlagSet.parseOne].  None of the program's flags is boolean,
    so every flag takes a value. *)
Definition parseOne (fs : FlagSet) (args : list string) : parse_one :=
  match args with
  | [] => Stop []
  | s :: tl =>
      match s with
      | String "-"%char (String c1 r1) =>
          let minus2 := Ascii.eqb c1 "-"%char in
          if minus2 && (String.length r1 =? 0)%nat then Stop tl
          else
            let name := if minus2 then r1 else String c1 r1 in
            match name with
            | EmptyString => Failf
            | String c _ =>
                if Ascii.eqb c "-"%char || Ascii.eqb c "="%char then Failf
                else
                  let '(name, value) := name_and_value name in
                  match formal fs !! name with
                  | None =>
                      if String.eqb name "help" || String.eqb name "h"
                      then ErrHelp else Failf
                  | Some f =>
                      let hv :=
                        match value, tl with
                        | Some v, _ => Some (v, tl)
                        | None, v :: tl' => Some (v, tl')
                        | None, [] => None
                        end in
                      match hv with
                      | None => Failf
                      | Some (v, rest) =>
                          match Set_ f v fs with
                          | Some fs' => Seen fs' rest
                          | None => Failf
                          end
                      end
                  end
            end
      | _ => Stop args
      end
  end.

Inductive parse_result : Type :=
| Parsed (fs : FlagSet) (rest : list string)
| Exit (code : Z).

(** [FlagSet.Parse] under [ExitOnError]: the loop over [parseOne];
    every [Seen] consumes an argument, which bounds the loop. *)
Fixpoint Parse_loop (fuel : nat) (fs : FlagSet) (args : list string)
  : parse_result :=
  match fuel with
  | O => Parsed fs args
  | S fuel =>
      match parseOne fs args with
      | Seen fs' rest => Parse_loop fuel fs' rest
      | Stop rest => Parsed fs rest
      | ErrHelp => Exit 0
      | Failf => Exit 2
      end
  end.

Definition Parse (fs : FlagSet) (args : list string) : parse_result :=
  Parse_loop (S (List.length args)) fs args.

End Parsing.

(** [flag.String(name, value, usage)]: allocates the cell, stores the
    default in it, and returns the pointer. *)
Definition String (name dflt : string) (fs : FlagSet) : nat * FlagSet :=
  define KString name (VString dflt) fs.

(** [flag.Int(name, value, usage)]. *)
Definition Int (name : string) (dflt : Z) (fs : FlagSet) : nat * FlagSet :=
  define KInt name (VInt dflt) fs.

End Flag.

(** ** The fastcache stores and their snapshot files *)

Module Fastcache.

(** Modelled from the spec: [github.com/VictoriaMetrics/fastcache] is an
    imported library, not part of this repository's sources.  A store is
    a key/value map with a byte ceiling (section 2, CacheStore); the
    32 MB minimum is the one [main.go] notes at the [cacheMaxBytes]
    flag.  Entries carry no expiry of their own: what a component needs
    to age an entry it keeps inside the value. *)
Record Cache : Type := mkCache {
  maxBytes : Z;
  entries : gmap string string;
}.

Definition minBytes : Z := 32 * 1024 * 1024.

(** Modelled from the spec: [fastcache.New], an empty store. *)
Definition New (maxBytes : Z) : Cache :=
  {| maxBytes := Z.max maxBytes minBytes; entries := ∅ |}.

(** Modelled from the spec: the file system holds one snapshot per
    path (section 6, Persisted state); [unwritable] are the paths at
    which saving fails. *)
Record FS : Type := mkFS {
  files : gmap string Cache;
  unwritable : gset string;
}.

(** Modelled from the spec: [fastcache.LoadFromFileOrNew], "loaded at
    startup if present ...; absence of a file is not an error (empty
    cache)". *)
Definition LoadFromFileOrNew (disk : FS) (filePath : string) (maxBytes : Z)
  : Cache :=
  match files disk !! filePath with
  | Some c => c
  | None => New maxBytes
  end.

(** Modelled from the spec: [Cache.SaveToFileConcurrent], which writes
    the snapshot of the store at [filePath] or fails with an error and
    leaves the file as it was. *)
Definition SaveToFileConcurrent (c : Cache) (filePath : string) (disk : FS)
  : FS * option string :=
  if decide (filePath ∈ unwritable disk)
  then (disk, Some ("cannot create " +:+ filePath))
  else ({| files := <[filePath := c]> (files disk);
           unwritable := unwritable disk |}, None).

End Fastcache.

(** ** [main.go] *)

Module Main.

Import GoStrings Fastcache.

(** *** Flags *)

(** The package-level variables of the [var ( ... )] block under
    [// Flags]: plain values, not pointers. *)
Record Vars : Type := mkVars {
  bindAddr : string;
  port : Z;
  streamURLaddr : string;
  cachePath : string;
  cacheMaxBytes : Z;
}.

(** Package initialisation: each variable is initialised with
    [*flag.String(...)] or [*flag.Int(...)], the flag's cell read at
    that moment. *)
Definition package_init : Vars * Flag.FlagSet :=
  let '(p, cl) := Flag.String "bindAddr" "localhost" Flag.CommandLine in
  let bindAddr := Flag.deref_string p cl in
  let '(p, cl) := Flag.Int "port" 8080 cl in
  let port := Flag.deref_int p cl in
  let '(p, cl) := Flag.String "streamURLaddr" "http://localhost:8080" cl in
  let streamURLaddr := Flag.deref_string p cl in
  let '(p, cl) := Flag.String "cachePath" "" cl in
  let cachePath := Flag.deref_string p cl in
  let '(p, cl) := Flag.Int "cacheMaxBytes" (128 * 1024 * 1024) cl in
  let cacheMaxBytes := Flag.deref_int p cl in
  (mkVars bindAddr port streamURLaddr cachePath cacheMaxBytes, cl).

(** *** The process state *)

Inductive store : Type := Token | Availability | Torrent | Redirect.

#[global] Instance store_eq_dec : EqDecision store.
Proof. solve_decision. Defined.

Record World : Type := mkWorld {
  vars : Vars;
  commandLine : Flag.FlagSet;
  tokenCache : Cache;
  availabilityCache : Cache;
  torrentCache : Cache;
  redirectCache : Cache;
  srv_Addr : string;
  disk : FS;
  stopping : bool;
  log : list string;
  persisting : list store;   (* the saves a persistence cycle under way has still to make *)
}.

Definition cache_of (s : store) (w : World) : Cache :=
  match s with
  | Token => tokenCache w
  | Availability => availabilityCache w
  | Torrent => torrentCache w
  | Redirect => redirectCache w
  end.

(** The snapshot file of a store under a cache directory. *)
Definition file_of (s : store) : string :=
  match s with
  | Token => "/token"
  | Availability => "/availability"
  | Torrent => "/torrent"
  | Redirect => "/redirect"
  end.

Definition set_disk (d : FS) (w : World) : World :=
  mkWorld (vars w) (commandLine w) (tokenCache w) (availabilityCache w)
    (torrentCache w) (redirectCache w) (srv_Addr w) d (stopping w) (log w)
    (persisting w).

Definition set_stopping (b : bool) (w : World) : World :=
  mkWorld (vars w) (commandLine w) (tokenCache w) (availabilityCache w)
    (torrentCache w) (redirectCache w) (srv_Addr w) (disk w) b (log w)
    (persisting w).

Definition log_Println (msg : string) (w : World) : World :=
  mkWorld (vars w) (commandLine w) (tokenCache w) (availabilityCache w)
    (torrentCache w) (redirectCache w) (srv_Addr w) (disk w) (stopping w)
    (log w ++ [msg]) (persisting w).

Definition set_persisting (l : list store) (w : World) : World :=
  mkWorld (vars w) (commandLine w) (tokenCache w) (availabilityCache w)
    (torrentCache w) (redirectCache w) (srv_Addr w) (disk w) (stopping w)
    (log w) l.

(** A handler or client writing to its store: the store's entries
    afterwards are [e]. *)
Definition set_entries (s : store) (e : gmap string string) (w : World)
  : World :=
  let upd (t : store) (c : Cache) : Cache :=
    match s, t with
    | Token, Token | Availability, Availability
    | Torrent, Torrent | Redirect, Redirect => mkCache (maxBytes c) e
    | _, _ => c
    end in
  mkWorld (vars w) (commandLine w)
    (upd Token (tokenCache w)) (upd Availability (availabilityCache w))
    (upd Torrent (torrentCache w)) (upd Redirect (redirectCache w))
    (srv_Addr w) (disk w) (stopping w) (log w) (persisting w).

(** *** [main], up to the start of the server *)

Inductive outcome : Type :=
| Running (w : World)
| ExitedAt (code : Z)        (* [flag.Parse] left through [os.Exit] *)
| Fatal (msg : string).      (* [log.Fatal] *)

Section Startup.

Variable ParseInt : string -> option Z.

(** [args] is [os.Args[1:]], [UserCacheDir] what [os.UserCacheDir()]
    returns ([None] for an error), [d] the file system found. *)
Definition startup (args : list string) (UserCacheDir : option string)
    (d : FS) : outcome :=
  let '(v, cl) := package_init in
  match Flag.Parse ParseInt cl args with
  | Flag.Exit code => ExitedAt code
  | Flag.Parsed cl _ =>
      let dir :=
        if String.eqb (cachePath v) ""
        then match UserCacheDir with
             | None => None
             | Some userCacheDir => Some (userCacheDir +:+ "/deflix-stremio")
             end
        else Some (TrimSuffix (cachePath v) "/") in
      match dir with
      | None =>
          Fatal "Couldn't determine user cache directory via `os.UserCacheDir()`:"
      | Some dir =>
          let cachePath := dir +:+ "/cache" in
          let tokenCache :=
            LoadFromFileOrNew d (cachePath +:+ "/token")
              (cacheMaxBytes v ÷ 4) in
          let availabilityCache :=
            LoadFromFileOrNew d (cachePath +:+ "/availability")
              (cacheMaxBytes v ÷ 4) in
          let torrentCache :=
            LoadFromFileOrNew d (cachePath +:+ "/torrent")
              (cacheMaxBytes v ÷ 4) in
          let redirectCache :=
            LoadFromFileOrNew d (cachePath +:+ "/redirect")
              (cacheMaxBytes v ÷ 4) in
          Running
            {| vars := mkVars (bindAddr v) (port v) (streamURLaddr v)
                         cachePath (cacheMaxBytes v);
               commandLine := cl;
               tokenCache := tokenCache;
               availabilityCache := availabilityCache;
               torrentCache := torrentCache;
               redirectCache := redirectCache;
               srv_Addr := bindAddr v +:+ ":" +:+ Itoa (port v);
               disk := d;
               stopping := false;
               log := ["Setting up server"; "Starting server"];
               persisting := [] |}
      end
  end.

End Startup.

(** *** [persistCache] *)

Definition save (s : store) (what : string) (cacheFilePath : string)
    (w : World) : World :=
  match SaveToFileConcurrent (cache_of s w)
          (cacheFilePath +:+ file_of s) (disk w) with
  | (d, None) => set_disk d w
  | (d, Some err) =>
      log_Println ("Couldn't save " +:+ what +:+ " cache to file: " +:+ err)
        (set_disk d w)
  end.

(** [stoppingPtr] points to [main]'s local [stopping], the world's
    [stopping] field. *)
Definition persistCache (cacheFilePath : string) (w : World) : World :=
  if stopping w then
    log_Println
      "Regular cache persistence triggered, but server is shutting down" w
  else
    let w := log_Println ("Persisting caches to " +:+ cacheFilePath +:+ "...") w in
    let w := save Token "token" cacheFilePath w in
    let w := save Availability "availability" cacheFilePath w in
    let w := save Torrent "torrent" cacheFilePath w in
    let w := save Redirect "redirect" cacheFilePath w in
    log_Println "Persisted caches" w.

(** *** A persistence cycle, save by save

    [persistCache] runs in a goroutine of its own, so the signal, the
    requests and the shutdown can fall between its flag check and any of
    its four saves.  [begin_cycle] is the function up to its first log
    line, [next_save] each of the saves that follow, the last one with
    the closing log line. *)

Definition store_label (s : store) : string :=
  match s with
  | Token => "token"
  | Availability => "availability"
  | Torrent => "torrent"
  | Redirect => "redirect"
  end.

Definition begin_cycle (cacheFilePath : string) (w : World) : World :=
  if stopping w then
    log_Println
      "Regular cache persistence triggered, but server is shutting down" w
  else
    set_persisting [Token; Availability; Torrent; Redirect]
      (log_Println ("Persisting caches to " +:+ cacheFilePath +:+ "...") w).

Definition next_save (cacheFilePath : string) (w : World) : World :=
  match persisting w with
  | [] => w
  | s :: rest =>
      let w := set_persisting rest (save s (store_label s) cacheFilePath w) in
      match rest with
      | [] => log_Println "Persisted caches" w
      | _ => w
      end
  end.

(** *** The goroutines of [main] and the shutdown sequence *)

Inductive phase : Type :=
| Serving
| ShuttingDown          (* the flag is set, [srv.Shutdown] has not returned *)
| Exited (code : Z).

Inductive event : Type :=
| Tick                                         (* a whole cycle, nothing in between *)
| Traffic (s : store) (e : gmap string string) (* a request writes to a store *)
| Signal                                       (* SIGINT or SIGTERM on [c] *)
| ShutdownReturns (err : bool)                 (* [srv.Shutdown(ctx)] returns *)
| CycleBegins                                  (* [time.Sleep(time.Hour)] returns *)
| CycleSaves                                   (* the cycle under way makes its next save *)
| ListenAndServeReturns.                       (* [srv.ListenAndServe()] returns *)

(** One step of the process.  [Tick] is a cycle of [persistCache] that
    no other goroutine interleaves with; [CycleBegins] and [CycleSaves]
    are the same cycle taken apart, so that the other events can fall
    between its flag check and its saves.  There is one persistence
    goroutine: no cycle begins while one is under way.

    After the signal, [srv.Shutdown] closes the listener, which makes
    [srv.ListenAndServe] return [http.ErrServerClosed] in its goroutine;
    the error is not nil, so that goroutine calls [log.Fatal] and the
    process exits with status 1.  [main] returning from a clean
    [srv.Shutdown] (status 0) happens only when it gets there first. *)
Definition step (st : phase * World) (ev : event) : phase * World :=
  let '(ph, w) := st in
  match ph, ev with
  | Exited _, _ => st
  | _, Tick => (ph, persistCache (cachePath (vars w)) w)
  | _, Traffic s e => (ph, set_entries s e w)
  | _, CycleBegins =>
      match persisting w with
      | [] => (ph, begin_cycle (cachePath (vars w)) w)
      | _ => st
      end
  | _, CycleSaves => (ph, next_save (cachePath (vars w)) w)
  | Serving, Signal =>
      (ShuttingDown,
       set_stopping true (log_Println "Received signal. Shutting down..." w))
  | ShuttingDown, Signal => st
  | Serving, ShutdownReturns _ => st
  | ShuttingDown, ShutdownReturns true =>
      (Exited 1, log_Println "Error shutting down server:" w)
  | ShuttingDown, ShutdownReturns false => (Exited 0, w)
  | Serving, ListenAndServeReturns => st
  | ShuttingDown, ListenAndServeReturns =>
      (Exited 1, log_Println "Couldn't start server:http: Server closed" w)
  end.

Definition run (st : phase * World) (evs : list event) : phase * World :=
  fold_left step evs st.

(** Every store's snapshot file holds the store as it is now. *)
Definition flushed (w : World) : Prop :=
  ∀ s, files (disk w) !! (cachePath (vars w) +:+ file_of s)
       = Some (cache_of s w).

(** The four snapshot files under a cache directory. *)
Definition snapshot_files (cachePath : string) : list string :=
  map (fun s => cachePath +:+ file_of s) [Token; Availability; Torrent; Redirect].

(** The snapshot files a cycle under way has still to write. *)
Definition pending_files (w : World) : list string :=
  map (fun s => cachePath (vars w) +:+ file_of s) (persisting w).

(** [w'] differs from [w] in its snapshot files and its log only. *)
Definition only_files_and_log (w w' : World) : Prop :=
  vars w' = vars w
  ∧ stopping w' = stopping w
  ∧ unwritable (disk w') = unwritable (disk w)
  ∧ ∀ t, cache_of t w' = cache_of t w.

End Main.

(** ** The router of [main]: routes, middleware, and how a request is served *)

Module Router.

Import GoStrings.

(** The handlers and middleware [main] wires together; their bodies
    live in other files of the package. *)
Inductive handler_name : Type :=
| healthHandler | manifestHandler | streamHandler | redirectHandler.

#[global] Instance handler_name_eq_dec : EqDecision handler_name.
Proof. solve_decision. Defined.

Inductive middleware : Type :=
| timerMiddleware | corsMiddleware | ProxyHeaders
| recoveryMiddleware | loggingMiddleware | tokenMiddleware.

(** An [http.Handler]: a handler function, or a middleware applied to
    the next handler, as in [tokenMiddleware(manifestHandler)]. *)
Inductive Handler : Type :=
| HandlerFunc (h : handler_name)
| Wrap (m : middleware) (next : Handler).

Record Route : Type := mkRoute { template : string; handler : Handler }.

Record Subrouter : Type := mkSubrouter {
  methods : list string;          (* [r.Methods("GET").Subrouter()] *)
  used : list middleware;         (* [s.Use(...)], outermost first *)
  routes : list Route;            (* [s.HandleFunc(...)], in order *)
}.

(** The subrouter [s] as [main] builds it and hands it to the server. *)
Definition s : Subrouter :=
  {| methods := ["GET"];
     used := [timerMiddleware; corsMiddleware; ProxyHeaders;
              recoveryMiddleware; loggingMiddleware];
     routes :=
       [ mkRoute "/health" (HandlerFunc healthHandler);
         mkRoute "/{apitoken}/manifest.json"
           (Wrap tokenMiddleware (HandlerFunc manifestHandler));
         mkRoute "/{apitoken}/stream/{type}/{id}.json"
           (Wrap tokenMiddleware (HandlerFunc streamHandler));
         mkRoute "/redirect/{id}" (HandlerFunc redirectHandler) ] |}.

(** *** Path templates

    A template segment is a literal or a variable [{name}] followed by
    a literal suffix; a variable matches one or more bytes other than
    ['/']. *)
Inductive segment : Type :=
| Lit (s : string)
| Var (name suffix : string).

Fixpoint cut_brace (s : string) : string * string :=
  match s with
  | EmptyString => (EmptyString, EmptyString)
  | String c rest =>
      if Ascii.eqb c "}"%char then (EmptyString, rest)
      else let '(n, suffix) := cut_brace rest in (String c n, suffix)
  end.

Definition parse_segment (t : string) : segment :=
  match t with
  | String "{"%char rest => let '(n, suffix) := cut_brace rest in Var n suffix
  | _ => Lit t
  end.

Definition match_segment (t : segment) (seg : string)
  : option (list (string * string)) :=
  match t with
  | Lit l => if String.eqb l seg then Some [] else None
  | Var name suffix =>
      if HasSuffix seg suffix
         && (String.length suffix <? String.length seg)%nat
      then Some [(name,
                  String.substring 0
                    (String.length seg - String.length suffix) seg)]
      else None
  end.

Fixpoint match_segments (ts ss : list string)
  : option (list (string * string)) :=
  match ts, ss with
  | [], [] => Some []
  | t :: ts, seg :: ss =>
      match match_segment (parse_segment t) seg, match_segments ts ss with
      | Some a, Some b => Some (a ++ b)%list
      | _, _ => None
      end
  | _, _ => None
  end.

Definition match_path (tpl path : string) : option (list (string * string)) :=
  match_segments (Split tpl "/") (Split path "/").

Record Request : Type := mkRequest { method : string; path : string }.

(** [mux.Vars(r)[name]]: the empty string when the route has no such
    variable. *)
Fixpoint Vars (vs : list (string * string)) (name : string) : string :=
  match vs with
  | [] => ""
  | (n, v) :: vs => if String.eqb n name then v else Vars vs name
  end.

(** The first route, in registration order, whose template matches. *)
Fixpoint find_route (rs : list Route) (p : string)
  : option (Route * list (string * string)) :=
  match rs with
  | [] => None
  | r :: rs =>
      match match_path (template r) p with
      | Some vs => Some (r, vs)
      | None => find_route rs p
      end
  end.

(** *** Serving a request *)

(** [cleanPath] of the router: the path made rooted, cleaned with
    [path.Clean], and given back the trailing slash it had. *)
Definition cleanPath (p : string) : string :=
  match p with
  | EmptyString => "/"
  | String c _ =>
      let p := if Ascii.eqb c "/"%char then p else "/" +:+ p in
      let np := Clean p in
      if HasSuffix p "/" && negb (String.eqb np "/") then np +:+ "/" else np
  end.

(** Modelled from the spec: what [CredentialGate.Validate] answers for
    a raw credential (section 4.1). *)
Inductive validation : Type :=
| Session | InvalidCredential | ProviderUnavailable.

Inductive event : Type :=
| Enter (m : middleware)
| Validated (credential : string)     (* the credential was accepted *)
| Rejected (status : Z)               (* the request was turned away *)
| HandlerRun (h : handler_name)
| NoMatch                             (* no route: 404 or 405 *)
| MovedPermanently (location : string). (* the path was not clean: 301 *)

Section Serving.

Variable Validate : string -> validation.

(** Modelled from the spec: [createTokenMiddleware] is not in
    [main.go]; per sections 4.1 and 7 the middleware validates the
    credential of the path, rejects the request on
    [InvalidCredential] (401) and on [ProviderUnavailable] (5xx) and
    otherwise lets the next handler run.  The other middleware pass
    the request on. *)
Fixpoint ServeHTTP (h : Handler) (vs : list (string * string))
  : list event :=
  match h with
  | HandlerFunc f => [HandlerRun f]
  | Wrap tokenMiddleware next =>
      let credential := Vars vs "apitoken" in
      match Validate credential with
      | Session => Validated credential :: ServeHTTP next vs
      | InvalidCredential => [Rejected 401]
      | ProviderUnavailable => [Rejected 503]
      end
  | Wrap m next => Enter m :: ServeHTTP next vs
  end.

(** The routing of a request whose path is clean: match the method and
    a route, then run the route's handler inside the middleware of
    [Use], the first listed outermost. *)
Definition serve (rt : Subrouter) (req : Request) : list event :=
  if bool_decide (method req ∈ methods rt) then
    match find_route (routes rt) (path req) with
    | Some (r, vs) => ServeHTTP (fold_right Wrap (handler r) (used rt)) vs
    | None => [NoMatch]
    end
  else [NoMatch].

(** The subrouter as the server's handler, [Router.ServeHTTP]: a path
    that is not in its clean form is answered with a redirect to the
    clean one before any route is tried; otherwise the request is
    routed. *)
Definition Subrouter_ServeHTTP (rt : Subrouter) (req : Request)
  : list event :=
  let p := cleanPath (path req) in
  if String.eqb p (path req) then serve rt req else [MovedPermanently p].

End Serving.

(** A trace keeps validation in front of handler [h]: every run of [h]
    comes after a [Validated] event. *)
Fixpoint gated (h : handler_name) (seen : bool) (tr : list event) : bool :=
  match tr with
  | [] => true
  | Validated _ :: tr => gated h true tr
  | HandlerRun f :: tr =>
      (if bool_decide (f = h) then seen else true) && gated h seen tr
  | _ :: tr => gated h seen tr
  end.

Definition validated_before (h : handler_name) (tr : list event) : bool :=
  gated h false tr.

(** Handler [h] runs in the trace; some credential is validated in it. *)
Definition runs (h : handler_name) (tr : list event) : bool :=
  existsb (fun e => match e with
                    | HandlerRun f => bool_decide (f = h)
                    | _ => false
                    end) tr.

Definition validates (tr : list event) : bool :=
  existsb (fun e => match e with Validated _ => true | _ => false end) tr.

End Router.

(** ** The search aggregator behind [imdb2torrent.NewClient] *)

Module Search.

(** Modelled from the spec: the package [pkg/imdb2torrent] is not among
    the sources; section 3 gives a candidate as title, quality label,
    info-hash, size and the indexers that reported it. *)
Record TorrentCandidate : Type := mkCandidate {
  title : string;
  quality : string;
  infoHash : string;
  size : Z;
  sources : list string;
}.

(** Modelled from the spec: section 3, "when multiple sources report
    the same info-hash, sources are merged into one candidate's
    provenance list, first-seen metadata wins". *)
Fixpoint merge_into (c : TorrentCandidate) (acc : list TorrentCandidate)
  : list TorrentCandidate :=
  match acc with
  | [] => [c]
  | d :: acc =>
      if String.eqb (infoHash d) (infoHash c)
      then mkCandidate (title d) (quality d) (infoHash d) (size d)
             (sources d ++ sources c) :: acc
      else d :: merge_into c acc
  end.

Definition dedup (l : list TorrentCandidate) : list TorrentCandidate :=
  fold_left (fun acc c => merge_into c acc) l [].

Section Aggregator.

(** The rank of a quality label and the lifetime of a cache entry;
    the specification leaves both to the implementation. *)
Variable rank : string -> Z.
Variable ttl : Z.

(** Modelled from the spec: section 4.2, "a total order by (quality
    rank descending, size descending)". *)
Definition better (c d : TorrentCandidate) : Prop :=
  (rank (quality d) < rank (quality c))%Z
  ∨ (rank (quality d) = rank (quality c) ∧ (size d ≤ size c)%Z).

#[local] Instance better_dec c d : Decision (better c d).
Proof. unfold better. apply _. Defined.

(** What the indexer adapters delivered before the outer deadline:
    [None] for an adapter that failed or timed out. *)
Definition found (answers : list (option (list TorrentCandidate)))
  : list TorrentCandidate :=
  concat (omap id answers).

Definition is_partial (answers : list (option (list TorrentCandidate)))
  : bool :=
  existsb (fun a => match a with None => true | Some _ => false end) answers
  || forallb (fun a => match a with None => true | Some _ => false end) answers.

(** Modelled from the spec: section 4.2, [Search], over the torrent
    cache by movie identifier, each entry with the time at which it
    expires.  A fresh cache
    entry is returned as it is; otherwise the adapters' answers are
    merged, deduplicated by info-hash, ordered, written to the cache
    and returned. *)
Definition Search (now : Z) (movieID : string)
    (answers : list (option (list TorrentCandidate)))
    (cache : gmap string (Z * list TorrentCandidate))
  : (list TorrentCandidate * bool) * gmap string (Z * list TorrentCandidate) :=
  let miss :=
    let merged := merge_sort better (dedup (found answers)) in
    ((merged, is_partial answers),
     <[movieID := (now + ttl, merged)]> cache) in
  match cache !! movieID with
  | Some (expires, cached) =>
      if (now <? expires)%Z then ((cached, false), cache) else miss
  | None => miss
  end.

(** A sequence of searches against one cache, oldest first; the
    results in the same order. *)
Fixpoint searches
    (reqs : list (Z * string * list (option (list TorrentCandidate))))
    (cache : gmap string (Z * list TorrentCandidate))
  : list (list TorrentCandidate * bool) :=
  match reqs with
  | [] => []
  | (now, movieID, answers) :: reqs =>
      let '(r, cache) := Search now movieID answers cache in
      r :: searches reqs cache
  end.

End Aggregator.

(** Every sequence held in the torrent cache has distinct info-hashes. *)
Definition cache_distinct (cache : gmap string (Z * list TorrentCandidate))
  : Prop :=
  ∀ k e cs, cache !! k = Some (e, cs) → NoDup (infoHash <$> cs).

End Search.

(** ** The debrid client behind [realdebrid.NewClient] *)

Module Debrid.

(** Modelled from the spec: the package [pkg/realdebrid] is not among
    the sources; section 4.3 names the failures of [Unlock],
    section 7 the provider being unreachable. *)
Inductive unlock_error : Type :=
| NotCached | QuotaExceeded | ProviderUnavailable.

(** Modelled from the spec: the availability cache, info-hash to
    (instantly available, checked-at), and the batched calls made to
    the provider so far (sections 3 and 4.3). *)
Record State : Type := mkState {
  availability : gmap string (bool * Z);
  check_calls : list (list string);
}.

Section Client.

(** The provider's availability answer for a batch of hashes, and the
    lifetime of an availability record. *)
Variable provider_check : string -> list string -> gmap string bool.
Variable ttl : Z.

Definition fresh (now : Z) (st : State) (h : string) : bool :=
  match availability st !! h with
  | Some (_, checked) => (now <? checked + ttl)%Z
  | None => false
  end.

(** Modelled from the spec: section 4.3, [CheckAvailability]:
    "consults AvailabilityCache per hash first; only queries the
    provider for the cache-miss subset; merges provider response into
    the cache ... before returning", in a single round trip. *)
Definition CheckAvailability (now : Z) (session : string)
    (hashes : list string) (st : State) : gmap string bool * State :=
  let misses := List.filter (fun h => negb (fresh now st h)) hashes in
  let st' :=
    match misses with
    | [] => st
    | _ =>
        let answer := provider_check session misses in
        {| availability :=
             fold_left
               (fun m h =>
                  match answer !! h with
                  | Some b => <[h := (b, now)]> m
                  | None => m
                  end)
               misses (availability st);
           check_calls := check_calls st ++ [misses] |}
    end in
  (fold_left
     (fun m h =>
        match availability st' !! h with
        | Some (b, _) => <[h := b]> m
        | None => m
        end)
     hashes ∅,
   st').

End Client.

End Debrid.

(** ** The redirect resolver behind [createStreamHandler] and
    [createRedirectHandler] *)

Module Redirect.

Import Debrid.

(** Modelled from the spec: section 3, RedirectTicket and
    UnlockedStream; the handlers that hold them are not among the
    sources. *)
Record Ticket : Type := mkTicket {
  t_hash : string;
  t_selector : string;
  t_created : Z;
}.

Record State : Type := mkState {
  tickets : gmap string Ticket;            (* the redirect cache *)
  unlocked : gmap string (string * Z);     (* info-hash to (direct URL, expires-at) *)
  next_id : N;
  unlock_calls : list string;              (* the provider's [Unlock] calls, by info-hash *)
}.

Inductive resolve_error : Type :=
| TicketExpired
| UnlockFailed (e : unlock_error).

Section Resolver.

(** [base] is the address put in front of every redirect link
    ([streamURLaddr] in [main.go]); [ticket_ttl] the lifetime of a
    ticket; [provider_unlock session hash selector now] the
    provider's answer to an unlock call. *)
Variable base : string.
Variable ticket_ttl : Z.
Variable provider_unlock :
  string -> string -> string -> Z -> (string * Z) + unlock_error.

Definition redirectURL (id : string) : string :=
  base +:+ "/redirect/" +:+ id.

(** Modelled from the spec: section 4.4, [IssueTicket]: "pure, no
    provider call - just mints an opaque id, stores a RedirectTicket
    in RedirectCache". *)
Definition IssueTicket (now : Z) (hash selector : string) (st : State)
  : string * State :=
  let id := pretty (next_id st) in
  (redirectURL id,
   {| tickets := <[id := mkTicket hash selector now]> (tickets st);
      unlocked := unlocked st;
      next_id := N.succ (next_id st);
      unlock_calls := unlock_calls st |}).

(** A ticket that is present and still within its own lifetime. *)
Definition live_ticket (now : Z) (id : string) (st : State)
  : option Ticket :=
  match tickets st !! id with
  | Some t => if (now <? t_created t + ticket_ttl)%Z then Some t else None
  | None => None
  end.

Definition cached_stream (now : Z) (hash : string) (st : State)
  : option string :=
  match unlocked st !! hash with
  | Some (url, expires) => if (now <? expires)%Z then Some url else None
  | None => None
  end.

(** [DebridClient.Unlock] as the resolver calls it, in its two
    halves: the call goes out to the provider and is recorded; the
    answer comes back, and a direct URL is cached under its
    info-hash. *)
Definition call_provider (hash : string) (st : State) : State :=
  {| tickets := tickets st; unlocked := unlocked st;
     next_id := next_id st;
     unlock_calls := unlock_calls st ++ [hash] |}.

Definition store_answer (hash : string)
    (answer : (string * Z) + unlock_error) (st : State)
  : (string + resolve_error) * State :=
  match answer with
  | inl (url, expires) =>
      (inl url,
       {| tickets := tickets st;
          unlocked := <[hash := (url, expires)]> (unlocked st);
          next_id := next_id st;
          unlock_calls := unlock_calls st |})
  | inr e => (inr (UnlockFailed e), st)
  end.

Definition Unlock (now : Z) (session hash selector : string) (st : State)
  : (string + resolve_error) * State :=
  store_answer hash (provider_unlock session hash selector now)
    (call_provider hash st).

(** Modelled from the spec: section 4.4, [Resolve]: "look up ticket
    (fail TicketExpired if absent/expired ...); if an UnlockedStream
    for that info-hash is already cached and not expired, return it
    directly; otherwise call DebridClient.Unlock and cache the result
    before returning". *)
Definition Resolve (now : Z) (session redirectID : string) (st : State)
  : (string + resolve_error) * State :=
  match live_ticket now redirectID st with
  | None => (inr TicketExpired, st)
  | Some t =>
      match cached_stream now (t_hash t) st with
      | Some url => (inl url, st)
      | None => Unlock now session (t_hash t) (t_selector t) st
      end
  end.

End Resolver.

End Redirect.

(** ** The stream endpoint *)

Module Stream.

Import Search.

(** Modelled from the spec: section 6, a stream option is
    [{title, url}]. *)
Record StreamItem : Type := mkItem { item_title : string; item_url : string }.

Record State : Type := mkState {
  torrents : gmap string (Z * list TorrentCandidate);
  debrid : Debrid.State;
  resolver : Redirect.State;
}.

Section Handler.

Variable base : string.
Variable rank : string -> Z.
Variable torrent_ttl availability_ttl : Z.
Variable provider_check : string -> list string -> gmap string bool.
(** The file selector chosen for a candidate. *)
Variable selector : TorrentCandidate -> string.

Fixpoint issue_all (now : Z) (cs : list TorrentCandidate)
    (st : Redirect.State) : list StreamItem * Redirect.State :=
  match cs with
  | [] => ([], st)
  | c :: cs =>
      let '(url, st) :=
        Redirect.IssueTicket base now (infoHash c) (selector c) st in
      let '(items, st) := issue_all now cs st in
      (mkItem (title c) url :: items, st)
  end.

(** Modelled from the spec: [createStreamHandler] is not among the
    sources; section 2 gives its data flow: the search aggregator,
    then [CheckAvailability] on the candidates' info-hashes, then a
    redirect ticket for each candidate the provider has available;
    the tickets' URLs are the stream options returned. *)
Definition streamHandler (now : Z) (session movieID : string)
    (answers : list (option (list TorrentCandidate))) (st : State)
  : list StreamItem * State :=
  let '((cands, _), torrents') :=
    Search rank torrent_ttl now movieID answers (torrents st) in
  let '(avail, debrid') :=
    Debrid.CheckAvailability provider_check availability_ttl now session
      (map infoHash cands) (debrid st) in
  let available :=
    List.filter
      (fun c => match avail !! infoHash c with
                | Some true => true
                | _ => false
                end) cands in
  let '(items, resolver') := issue_all now available (resolver st) in
  (items, mkState torrents' debrid' resolver').

End Handler.

End Stream.

(** ** Concurrent calls of [Resolve] *)

Module SingleFlight.

Import Debrid Redirect.

(** Modelled from the spec: section 4.4 gives the path of [Resolve]
    (ticket, unlocked stream, [Unlock], cache the answer), section 5 says
    that every cache store is synchronised on its own, that no caller
    holds a lock across a network call, and that "[Unlock] itself SHOULD
    collapse concurrent callers for the same info-hash into a single
    provider call (an in-flight dedup keyed by info-hash)".  So a call
    of [Resolve] moves through these points, one access to shared state
    at a time. *)
Inductive call : Type :=
| Start (session redirectID : string)        (* called, nothing done yet *)
| Ticketed (session : string) (t : Ticket)   (* has read its ticket *)
| Unlocking (session hash selector : string) (* missed the unlocked streams, calls [Unlock] *)
| Leader (session hash selector : string)    (* its [Unlock] is with the provider *)
| Waiter (hash : string)                     (* waits for the [Unlock] in flight *)
| Returned (hash : string) (answer : (string * Z) + unlock_error)
                                             (* [Unlock] has returned *)
| Done (r : string + resolve_error).

Record Shared : Type := mkShared {
  resolver : Redirect.State;
  inflight : gset string;       (* info-hashes with an [Unlock] in flight *)
  calls : list call;
}.

Definition set_call (i : nat) (c : call) (sh : Shared) : Shared :=
  mkShared (resolver sh) (inflight sh) (<[i := c]> (calls sh)).

(** The answer of a finished [Unlock] goes to everyone waiting for it. *)
Definition deliver (hash : string) (answer : (string * Z) + unlock_error)
    (c : call) : call :=
  match c with
  | Waiter h => if String.eqb h hash then Returned hash answer else c
  | _ => c
  end.

Section Concurrent.

Variable ticket_ttl : Z.
Variable provider_unlock :
  string -> string -> string -> Z -> (string * Z) + unlock_error.

(** One step of call [i] at time [now].  Each step is one access to one
    shared structure: the read of the ticket, the read of the unlocked
    streams, the test-and-set on the in-flight table that is the
    deduplication of [Unlock], the end of a flight, which hands the
    provider's answer to the callers waiting for it, and the write of
    the answer to the unlocked streams. *)
Definition step (sh : Shared) (it : nat * Z) : Shared :=
  let '(i, now) := it in
  match calls sh !! i with
  | Some (Start session id) =>
      match live_ticket ticket_ttl now id (resolver sh) with
      | None => set_call i (Done (inr TicketExpired)) sh
      | Some t => set_call i (Ticketed session t) sh
      end
  | Some (Ticketed session t) =>
      match cached_stream now (t_hash t) (resolver sh) with
      | Some url => set_call i (Done (inl url)) sh
      | None => set_call i (Unlocking session (t_hash t) (t_selector t)) sh
      end
  | Some (Unlocking session hash selector) =>
      if decide (hash ∈ inflight sh)
      then set_call i (Waiter hash) sh
      else
        mkShared (call_provider hash (resolver sh))
          ({[hash]} ∪ inflight sh)
          (<[i := Leader session hash selector]> (calls sh))
  | Some (Leader session hash selector) =>
      let answer := provider_unlock session hash selector now in
      mkShared (resolver sh) (inflight sh ∖ {[hash]})
        (<[i := Returned hash answer]> (map (deliver hash answer) (calls sh)))
  | Some (Returned hash answer) =>
      let '(r, st) := store_answer hash answer (resolver sh) in
      mkShared st (inflight sh) (<[i := Done r]> (calls sh))
  | _ => sh
  end.

(** A schedule names, step by step, the call that moves and the time
    on the clock. *)
Definition run (sh : Shared) (schedule : list (nat * Z)) : Shared :=
  fold_left step schedule sh.

(** [N] calls arriving at a resolver in state [st]. *)
Definition arrive (st : Redirect.State) (reqs : list (string * string))
  : Shared :=
  mkShared st ∅ (map (fun '(session, id) => Start session id) reqs).

End Concurrent.

(** How often the provider was asked to unlock [hash]. *)
Definition unlock_count (hash : string) (st : Redirect.State) : nat :=
  List.length (List.filter (String.eqb hash) (unlock_calls st)).





End SingleFlight.

(** ** Concrete inputs for the examples *)

Module Sample.

Import Main Fastcache.

(** The base-10 fragment of [strconv.ParseInt]. *)
Definition digit (c : ascii) : option Z :=
  let n := nat_of_ascii c in
  if (48 <=? n)%nat && (n <=? 57)%nat then Some (Z.of_nat (n - 48)) else None.

Fixpoint digits (s : string) (acc : Z) : option Z :=
  match s with
  | EmptyString => Some acc
  | String c rest =>
      match digit c with
      | Some k => digits rest (10 * acc + k)
      | None => None
      end
  end.

Definition ParseDecimal (s : string) : option Z :=
  match s with
  | EmptyString => None
  | String "-"%char (String c rest) => Z.opp <$> digits (String c rest) 0
  | _ => digits s 0
  end.

(** A machine with no snapshot yet and every path writable. *)
Definition empty_disk : FS := mkFS ∅ ∅.

Definition home : string := "/home/deflix/.cache".

(** The server started with [-port 9090 -cacheMaxBytes=268435456]. *)
Definition args : list string := ["-port"; "9090"; "-cacheMaxBytes=268435456"].

Definition started : World :=
  match startup ParseDecimal args (Some home) empty_disk with
  | Running w => w
  | _ => mkWorld (mkVars "" 0 "" "" 0) Flag.CommandLine (New 0) (New 0)
           (New 0) (New 0) "" empty_disk false [] []
  end.

(** A credential is cached, then the process is told to stop: the
    listener is closed and [srv.ListenAndServe] returns. *)
Definition token_then_stop : list event :=
  [Traffic Token {["apitoken" := "2019-12-24T18:00:00Z"]};
   Signal; ListenAndServeReturns].

(** Some traffic on all four stores. *)
Definition busy_hour : list event :=
  [Traffic Token {["apitoken" := "2019-12-24T18:00:00Z"]};
   Traffic Torrent {["tt0133093" := "magnet:?xt=urn:btih:aa"]};
   Traffic Availability {["aa" := "2019-12-24T18:00:01Z"]};
   Traffic Redirect {["tt0133093-1080p" := "aa"]}].

(** The signal arrives while a cycle is under way, after its first
    save: the cycle goes on, and then [srv.ListenAndServe] returns. *)
Definition signal_mid_cycle : list event :=
  [Traffic Token {["apitoken" := "2019-12-24T18:00:00Z"]};
   Traffic Torrent {["tt0133093" := "magnet:?xt=urn:btih:aa"]};
   CycleBegins; CycleSaves; Signal; CycleSaves; CycleSaves; CycleSaves;
   ListenAndServeReturns].

(** The process after the signal, while the server shuts down. *)
Definition stopped : World :=
  snd (run (Serving, started)
         [Traffic Token {["apitoken" := "2019-12-24T18:00:00Z"]}; Signal]).

(** The process after an hour of traffic, and the process started anew
    on the disk the persistence cycle leaves behind. *)
Definition served : World := snd (run (Serving, started) busy_hour).

Definition restarted : World :=
  match startup ParseDecimal [] (Some home)
          (disk (persistCache (cachePath (vars served)) served)) with
  | Running w => w
  | _ => started
  end.

(** A validator that turns every credential away, and the request of a
    player following a redirect link. *)
Definition deny_all (credential : string) : Router.validation :=
  Router.InvalidCredential.

Definition follow_link : Router.Request :=
  Router.mkRequest "GET" "/redirect/tt0133093-1080p".

(** A provider that unlocks every torrent into a direct URL valid until
    10000, tickets that live for 3600, and a resolver that has issued
    one ticket at time 0. *)
Definition unlocks_all (session hash selector : string) (now : Z)
  : (string * Z) + Debrid.unlock_error :=
  inl ("https://provider.example/d/" +:+ hash +:+ "?token=" +:+ session, 10000).

Definition fresh_resolver : Redirect.State :=
  Redirect.mkState ∅ ∅ 0%N [].

Definition issued : Redirect.State :=
  snd (Redirect.IssueTicket "http://localhost:8080" 0 "aa" "1080p"
         fresh_resolver).

Definition resolved : Redirect.State :=
  snd (Redirect.Resolve 3600 unlocks_all 100 "apitoken" "0" issued).

(** Two indexers report the same torrent, a third one times out; the
    provider has everything available. *)
Definition rank (quality : string) : Z :=
  if String.eqb quality "1080p" then 2
  else if String.eqb quality "720p" then 1 else 0.

Definition answers : list (option (list Search.TorrentCandidate)) :=
  [Some [Search.mkCandidate "The Matrix" "720p" "bb" 900 ["YTS"];
         Search.mkCandidate "The Matrix" "1080p" "aa" 1800 ["YTS"]];
   None;
   Some [Search.mkCandidate "Matrix 1999 1080p" "1080p" "aa" 1800 ["TPB"]]].

Definition all_available (session : string) (hashes : list string)
  : gmap string bool :=
  list_to_map ((fun h => (h, true)) <$> hashes).

Definition fresh_pipeline : Stream.State :=
  Stream.mkState ∅ (Debrid.mkState ∅ []) fresh_resolver.

(** Two players follow the same link at once.  Both miss the unlocked
    streams; the first one's [Unlock] goes to the provider and comes
    back, and only then does the second one reach [Unlock]. *)
Definition two_clicks : list (string * string) :=
  [("apitoken", "0"); ("apitoken", "0")].


(** The second one reaches [Unlock] while the first one's is in
    flight. *)
Definition overlapping : list (nat * Z) :=
  [(0%nat, 100); (1%nat, 100); (0%nat, 101); (1%nat, 101);
   (0%nat, 102); (1%nat, 102); (0%nat, 103); (0%nat, 104); (1%nat, 105)].

End Sample.

(** ** Notions used to state what the persistence cycle and the router do *)

Module Notions.

Import Main Fastcache.

(** The name under which [persistCache] logs a store. *)
Definition name_of (s : store) : string :=
  match s with
  | Token => "token"
  | Availability => "availability"
  | Torrent => "torrent"
  | Redirect => "redirect"
  end.

(** What the save of store [s] under directory [p] does to the file at
    [k], which held [prev]: nothing unless [k] is the store's snapshot
    path and can be written. *)
Definition save_effect (p : string) (w : World) (k : string) (s : store)
    (prev : option Cache) : option Cache :=
  if decide (k = p +:+ file_of s)
  then if decide (k ∈ unwritable (disk w)) then prev
       else Some (cache_of s w)
  else prev.

(** No byte of [s] is [sep]. *)
Fixpoint no_sep (sep : ascii) (s : string) : bool :=
  match s with
  | EmptyString => true
  | String c rest => negb (Ascii.eqb c sep) && no_sep sep rest
  end.

(** A flag name as it can follow the dash: not empty, not starting with
    a second dash, and without ['=']. *)
Definition plain_name (name : string) : bool :=
  match name with
  | EmptyString => false
  | String c r => negb (Ascii.eqb c "-"%char) && no_sep "="%char name
  end.

(** The names of the flags [main.go] defines. *)
Definition defined_flags : list string :=
  ["bindAddr"; "port"; "streamURLaddr"; "cachePath"; "cacheMaxBytes"].

(** The middleware of [s.Use(...)], entered in the order listed. *)
Definition through_Use : list Router.event :=
  map Router.Enter (Router.used Router.s).

(** A disk on which the token snapshot cannot be written, and the
    process of the examples moved onto it. *)
Definition token_readonly : FS :=
  mkFS ∅ {[ "/home/deflix/.cache/deflix-stremio/cache/token" ]}.

Definition served_readonly : World :=
  set_disk token_readonly Sample.served.

End Notions.

(** * Properties of flag parsing *)

Section FlagFacts.

Variable ParseInt : string -> option Z.

(** A flag that was seen used up at least one argument. *)
Lemma parseOne_Seen_shorter fs args fs' rest :
  Flag.parseOne ParseInt fs args = Flag.Seen fs' rest →
  (List.length rest < List.length args)%nat.
Proof.
  unfold Flag.parseOne. intros H.
  repeat case_match; simplify_eq; cbn [List.length]; lia.
Qed.

(** [Parse] never stops for lack of fuel: any larger bound gives the
    same result. *)
Lemma Parse_loop_enough n :
  ∀ m fs args,
    (List.length args < n)%nat → (List.length args < m)%nat →
    Flag.Parse_loop ParseInt n fs args = Flag.Parse_loop ParseInt m fs args.
Proof.
  induction n as [|n IH]; intros m fs args Hn Hm; [lia|].
  destruct m as [|m]; [lia|]. cbn [Flag.Parse_loop].
  destruct (Flag.parseOne ParseInt fs args) as [fs' rest| | |] eqn:E;
    try reflexivity.
  apply parseOne_Seen_shorter in E. apply IH; lia.
Qed.

Lemma Parse_more_fuel k fs args :
  Flag.Parse_loop ParseInt (S (List.length args) + k) fs args
  = Flag.Parse ParseInt fs args.
Proof. unfold Flag.Parse. apply Parse_loop_enough; lia. Qed.

End FlagFacts.

(** * Properties of [main.go] *)

Section MainFacts.

Import Main Fastcache GoStrings.

Lemma package_init_vars :
  fst package_init
  = mkVars "localhost" 8080 "http://localhost:8080" "" 134217728.
Proof. vm_compute. reflexivity. Qed.

(** The only way [startup] gets to a running server: [flag.Parse]
    returned, [os.UserCacheDir()] gave a directory, and everything else
    is computed from the initial values of the package variables. *)
Lemma startup_Running ParseInt args ucd d w :
  startup ParseInt args ucd d = Running w →
  ∃ dir cl,
    ucd = Some dir ∧
    w = {| vars := mkVars "localhost" 8080 "http://localhost:8080"
                     ((dir +:+ "/deflix-stremio") +:+ "/cache") 134217728;
           commandLine := cl;
           tokenCache :=
             LoadFromFileOrNew d
               (((dir +:+ "/deflix-stremio") +:+ "/cache") +:+ "/token") 33554432;
           availabilityCache :=
             LoadFromFileOrNew d
               (((dir +:+ "/deflix-stremio") +:+ "/cache") +:+ "/availability")
               33554432;
           torrentCache :=
             LoadFromFileOrNew d
               (((dir +:+ "/deflix-stremio") +:+ "/cache") +:+ "/torrent") 33554432;
           redirectCache :=
             LoadFromFileOrNew d
               (((dir +:+ "/deflix-stremio") +:+ "/cache") +:+ "/redirect") 33554432;
           srv_Addr := "localhost:8080";
           disk := d;
           stopping := false;
           log := ["Setting up server"; "Starting server"];
           persisting := [] |}.
Proof.
  unfold startup.
  pose proof package_init_vars as Hv.
  destruct package_init as [v cl0]. simpl in Hv. subst v.
  destruct (Flag.Parse ParseInt cl0 args) as [cl rest|code]; [|discriminate].
  cbn [cachePath bindAddr port streamURLaddr cacheMaxBytes String.eqb].
  destruct ucd as [dir|]; [|discriminate].
  replace (Itoa 8080) with "8080" by (vm_compute; reflexivity).
  change (134217728 ÷ 4) with 33554432.
  intros [= <-]. exists dir, cl. split; reflexivity.
Qed.

(** *** What saving and the persistence cycle leave alone *)

Lemma only_files_and_log_trans w1 w2 w3 :
  only_files_and_log w1 w2 → only_files_and_log w2 w3 →
  only_files_and_log w1 w3.
Proof.
  intros (Hv & Hs & Hu & Hc) (Hv' & Hs' & Hu' & Hc').
  repeat split; try congruence.
  all: intros t; rewrite Hc'; apply Hc.
Qed.

Lemma save_frame s what p w : only_files_and_log w (save s what p w).
Proof.
  unfold save, SaveToFileConcurrent.
  destruct (decide _); repeat split; try reflexivity; intros []; reflexivity.
Qed.

Lemma log_Println_frame msg w : only_files_and_log w (log_Println msg w).
Proof. repeat split; try reflexivity; intros []; reflexivity. Qed.

Lemma log_Println_disk msg w : disk (log_Println msg w) = disk w.
Proof. reflexivity. Qed.

Lemma save_files s what p w :
  p +:+ file_of s ∉ unwritable (disk w) →
  files (disk (save s what p w))
  = <[p +:+ file_of s := cache_of s w]> (files (disk w)).
Proof.
  intros Hw. unfold save, SaveToFileConcurrent.
  destruct (decide _); [contradiction|reflexivity].
Qed.

Lemma persistCache_frame p w : only_files_and_log w (persistCache p w).
Proof.
  unfold persistCache. destruct (stopping w).
  - apply log_Println_frame.
  - repeat (eapply only_files_and_log_trans;
            [|first [apply log_Println_frame | apply save_frame]]).
    by repeat split.
Qed.

(** C3: whatever the command line, a server that gets to run uses the
    compiled-in defaults: bindAddr "localhost", port 8080, streamURLaddr
    "http://localhost:8080", cachePath "" and cacheMaxBytes 134217728.
    The package variables are copies taken from the flags' cells at
    package initialisation, before [flag.Parse] writes to those cells,
    so the server binds to localhost:8080, the cache directory is
    derived from [os.UserCacheDir()], each of the four stores is made
    with a ceiling of 32 MB, and two command lines that both get the
    server running give the same configuration. *)
Theorem flags_parsed_but_never_observed ParseInt args ucd d w :
  startup ParseInt args ucd d = Running w →
  fst package_init
    = mkVars "localhost" 8080 "http://localhost:8080" "" 134217728
  ∧ bindAddr (vars w) = "localhost"
  ∧ port (vars w) = 8080
  ∧ streamURLaddr (vars w) = "http://localhost:8080"
  ∧ cacheMaxBytes (vars w) = 134217728
  ∧ srv_Addr w = "localhost:8080"
  ∧ (∃ userCacheDir,
       ucd = Some userCacheDir
       ∧ cachePath (vars w) = (userCacheDir +:+ "/deflix-stremio") +:+ "/cache")
  ∧ (∀ s, cache_of s w
          = LoadFromFileOrNew d (cachePath (vars w) +:+ file_of s)
              (32 * 1024 * 1024))
  ∧ (∀ args' w',
       startup ParseInt args' ucd d = Running w' →
       vars w' = vars w ∧ srv_Addr w' = srv_Addr w
       ∧ ∀ s, cache_of s w' = cache_of s w).
Proof.
  intros Hrun.
  destruct (startup_Running _ _ _ _ _ Hrun) as (dir & cl & -> & ->).
  split; [exact package_init_vars|].
  do 5 (split; [reflexivity|]).
  split; [exists dir; split; reflexivity|].
  split; [intros []; reflexivity|].
  intros args' w' Hrun'.
  destruct (startup_Running _ _ _ _ _ Hrun') as (dir' & cl' & [= <-] & ->).
  by repeat split.
Qed.

Lemma flags_parsed_but_never_observed_witness :
  startup Sample.ParseDecimal Sample.args (Some Sample.home) Sample.empty_disk
    = Running Sample.started
  ∧ Flag.deref_int 1 (commandLine Sample.started) = 9090
  ∧ port (vars Sample.started) = 8080.
Proof.
  split; [vm_compute; reflexivity|].
  split; [vm_compute; reflexivity|].
  apply (flags_parsed_but_never_observed Sample.ParseDecimal Sample.args
           (Some Sample.home) Sample.empty_disk Sample.started).
  vm_compute; reflexivity.
Defined.

(** *** The persistence cycle and the shutdown flag *)

Lemma persistCache_stopping p w :
  stopping w = true →
  persistCache p w
  = log_Println
      "Regular cache persistence triggered, but server is shutting down" w.
Proof. intros Hs. unfold persistCache. by rewrite Hs. Qed.

(** C5: when the shutdown flag is set, [persistCache] logs that it was
    triggered and returns: it performs no save, so every snapshot file
    and every in-memory store is as before, and so it is for the
    hourly cycle of a process that is shutting down. *)
Theorem persistCache_skipped_when_stopping cacheFilePath w :
  stopping w = true →
  persistCache cacheFilePath w
    = log_Println
        "Regular cache persistence triggered, but server is shutting down" w
  ∧ disk (persistCache cacheFilePath w) = disk w
  ∧ (∀ s, cache_of s (persistCache cacheFilePath w) = cache_of s w)
  ∧ disk (snd (step (ShuttingDown, w) Tick)) = disk w.
Proof.
  intros Hs. cbn [step snd]. rewrite (persistCache_stopping _ _ Hs).
  rewrite (persistCache_stopping _ _ Hs). by repeat split.
Qed.

Lemma persistCache_skipped_when_stopping_witness :
  stopping Sample.stopped = true
  ∧ entries (tokenCache Sample.stopped) !! "apitoken"
    = Some "2019-12-24T18:00:00Z"
  ∧ files (disk (persistCache (cachePath (vars Sample.stopped)) Sample.stopped))
    = ∅.
Proof.
  split; [vm_compute; reflexivity|].
  split; [vm_compute; reflexivity|].
  destruct (persistCache_skipped_when_stopping
              (cachePath (vars Sample.stopped)) Sample.stopped)
    as (_ & -> & _); vm_compute; reflexivity.
Defined.

Lemma set_persisting_frame l w : only_files_and_log w (set_persisting l w).
Proof. repeat split; try reflexivity; intros []; reflexivity. Qed.

Lemma begin_cycle_frame p w :
  only_files_and_log w (begin_cycle p w) ∧ disk (begin_cycle p w) = disk w.
Proof.
  unfold begin_cycle. destruct (stopping w).
  - split; [apply log_Println_frame|reflexivity].
  - split; [|reflexivity].
    eapply only_files_and_log_trans;
      [apply log_Println_frame|apply set_persisting_frame].
Qed.

Lemma next_save_frame p w : only_files_and_log w (next_save p w).
Proof.
  unfold next_save. destruct (persisting w) as [|s rest]; [by repeat split|].
  assert (only_files_and_log w
            (set_persisting rest (save s (store_label s) p w))) as F
    by (eapply only_files_and_log_trans;
        [apply save_frame|apply set_persisting_frame]).
  destruct rest; [|exact F].
  eapply only_files_and_log_trans; [exact F|apply log_Println_frame].
Qed.

Lemma set_entries_frame s e w :
  vars (set_entries s e w) = vars w
  ∧ stopping (set_entries s e w) = stopping w
  ∧ disk (set_entries s e w) = disk w
  ∧ persisting (set_entries s e w) = persisting w.
Proof. by repeat split. Qed.

(** A step changes neither the package variables nor the set of paths
    that cannot be written; it never clears the flag and never takes the
    process back to serving. *)
Lemma step_keeps ph w ev :
  vars (snd (step (ph, w) ev)) = vars w
  ∧ unwritable (disk (snd (step (ph, w) ev))) = unwritable (disk w)
  ∧ (stopping w = true → stopping (snd (step (ph, w) ev)) = true)
  ∧ (ph ≠ Serving → fst (step (ph, w) ev) ≠ Serving).
Proof.
  pose proof (persistCache_frame (cachePath (vars w)) w) as (Pv & Ps & Pu & _).
  pose proof (begin_cycle_frame (cachePath (vars w)) w)
    as ((Bv & Bs & Bu & _) & _).
  pose proof (next_save_frame (cachePath (vars w)) w) as (Nv & Ns & Nu & _).
  destruct ph as [| |code], ev as [|s e| |[]| | |]; cbn [step fst snd];
    try destruct (persisting w);
    cbn [fst snd];
    repeat split; try done; try congruence.
Qed.

Lemma shutting_down_stays evs :
  ∀ ph w,
    ph ≠ Serving → stopping w = true →
    fst (run (ph, w) evs) ≠ Serving
    ∧ stopping (snd (run (ph, w) evs)) = true.
Proof.
  induction evs as [|ev evs IH]; intros ph w Hph Hs; [by split|].
  change (run (ph, w) (ev :: evs)) with (run (step (ph, w) ev) evs).
  destruct (step_keeps ph w ev) as (_ & _ & Hs' & Hph').
  destruct (step (ph, w) ev) as [ph' w']. cbn [fst snd] in *.
  apply IH; auto.
Qed.

Lemma save_other_file s what p w k :
  k ≠ p +:+ file_of s →
  files (disk (save s what p w)) !! k = files (disk w) !! k.
Proof.
  intros Hk. unfold save, SaveToFileConcurrent.
  destruct (decide _); cbn; [reflexivity|].
  apply lookup_insert_ne. congruence.
Qed.

(** What a process that is shutting down can still do to the disk: the
    saves of a cycle that was under way, and nothing else. *)
Lemma step_after_signal w0 ph w ev :
  ph ≠ Serving → stopping w = true → vars w = vars w0 →
  (∀ s, s ∈ persisting w → s ∈ persisting w0) →
  (∀ s, s ∈ persisting (snd (step (ph, w) ev)) → s ∈ persisting w0)
  ∧ ∀ k, k ∉ pending_files w0 →
         files (disk (snd (step (ph, w) ev))) !! k = files (disk w) !! k.
Proof.
  intros Hph Hs Hv Hsub.
  destruct ph as [| |code]; [done| |by split].
  destruct ev as [|s e| |[]| | |]; cbn [step snd]; try (by split).
  - rewrite (persistCache_stopping _ _ Hs). by split.
  - destruct (persisting w) eqn:Hp; cbn [snd]; [|by rewrite Hp].
    unfold begin_cycle. rewrite Hs. cbn. rewrite Hp. by split.
  - unfold next_save. destruct (persisting w) as [|s rest] eqn:Hp;
      [by rewrite Hp|].
    assert (∀ k, k ∉ pending_files w0 →
                 files (disk (save s (store_label s) (cachePath (vars w)) w)) !! k
                 = files (disk w) !! k) as Hfiles.
    { intros k Hk. apply save_other_file. intros ->. apply Hk.
      unfold pending_files. rewrite <- Hv. apply list_elem_of_fmap.
      exists s. split; [reflexivity|]. apply Hsub. left. }
    assert (∀ t, t ∈ rest → t ∈ persisting w0) as Hrest
      by (intros t Ht; apply Hsub; by right).
    destruct rest; cbn; by split.
Qed.

Lemma run_after_signal w0 evs :
  ∀ ph w,
    ph ≠ Serving → stopping w = true → vars w = vars w0 →
    (∀ s, s ∈ persisting w → s ∈ persisting w0) →
    ∀ k, k ∉ pending_files w0 →
         files (disk (snd (run (ph, w) evs))) !! k = files (disk w) !! k.
Proof.
  induction evs as [|ev evs IH]; intros ph w Hph Hs Hv Hsub k Hk;
    [reflexivity|].
  change (run (ph, w) (ev :: evs)) with (run (step (ph, w) ev) evs).
  destruct (step_keeps ph w ev) as (Hv' & _ & Hs' & Hph').
  destruct (step_after_signal w0 ph w ev Hph Hs Hv Hsub) as (Hsub' & Hfiles).
  destruct (step (ph, w) ev) as [ph' w']. cbn [fst snd] in *.
  rewrite (IH ph' w'); auto. congruence.
Qed.

(** C4, as the code has it: there is no final flush.  The steps of
    [main]'s own shutdown sequence, receiving the signal and setting the
    flag, [srv.Shutdown] returning, [srv.ListenAndServe] returning, write
    no snapshot file and change no store.  Once the signal has arrived
    the flag stays set and no cycle begins, so the only snapshot files
    that can still change before the process is gone are those that a
    cycle already past its flag check had still to write; when no cycle
    was under way, nothing on the disk changes any more.  The stores are
    saved by the hourly cycle only. *)
Theorem shutdown_performs_no_flush w evs :
  (∀ st err,
     disk (snd (step st Signal)) = disk (snd st)
     ∧ disk (snd (step st (ShutdownReturns err))) = disk (snd st)
     ∧ disk (snd (step st ListenAndServeReturns)) = disk (snd st))
  ∧ stopping (snd (run (step (Serving, w) Signal) evs)) = true
  ∧ (∀ k, k ∉ pending_files w →
          files (disk (snd (run (step (Serving, w) Signal) evs))) !! k
          = files (disk w) !! k)
  ∧ (persisting w = [] →
     files (disk (snd (run (step (Serving, w) Signal) evs))) = files (disk w)).
Proof.
  assert (∀ k, k ∉ pending_files w →
               files (disk (snd (run (step (Serving, w) Signal) evs))) !! k
               = files (disk w) !! k) as Hfiles.
  { intros k Hk. cbn [step].
    rewrite (run_after_signal w evs ShuttingDown
               (set_stopping true
                  (log_Println "Received signal. Shutting down..." w)));
      auto; done. }
  split; [|split; [|split; [exact Hfiles|]]].
  - intros [[| |code] w'] err; destruct err; by repeat split.
  - cbn [step].
    by destruct (shutting_down_stays evs ShuttingDown
                   (set_stopping true
                      (log_Println "Received signal. Shutting down..." w))).
  - intros Hnone. apply map_eq. intros k. apply Hfiles.
    unfold pending_files. rewrite Hnone. apply not_elem_of_nil.
Qed.

Lemma save_set_persisting s what p ps w :
  save s what p (set_persisting ps w) = set_persisting ps (save s what p w).
Proof.
  unfold save, SaveToFileConcurrent. cbn [cache_of disk set_persisting].
  replace (cache_of s (set_persisting ps w)) with (cache_of s w)
    by (destruct s; reflexivity).
  destruct (decide _); reflexivity.
Qed.

Lemma save_persisting s what p w :
  persisting (save s what p w) = persisting w.
Proof. unfold save, SaveToFileConcurrent. destruct (decide _); reflexivity. Qed.

Lemma save_vars s what p w : vars (save s what p w) = vars w.
Proof. by destruct (save_frame s what p w) as (-> & _). Qed.

Lemma set_persisting_same w : set_persisting (persisting w) w = w.
Proof. destruct w; reflexivity. Qed.

Lemma next_save_cons p s rest w :
  next_save p (set_persisting (s :: rest) w)
  = match rest with
    | [] => log_Println "Persisted caches"
              (set_persisting [] (save s (store_label s) p w))
    | _ => set_persisting rest (save s (store_label s) p w)
    end.
Proof.
  unfold next_save. cbn [persisting set_persisting].
  rewrite save_set_persisting. by destruct rest.
Qed.

Lemma step_CycleSaves ph s rest w p :
  ph = Serving ∨ ph = ShuttingDown →
  cachePath (vars w) = p →
  step (ph, set_persisting (s :: rest) w) CycleSaves
  = (ph, match rest with
         | [] => log_Println "Persisted caches"
                   (set_persisting [] (save s (store_label s) p w))
         | _ => set_persisting rest (save s (store_label s) p w)
         end).
Proof.
  intros Hph <-. destruct Hph as [-> | ->]; cbn [step];
    by rewrite next_save_cons.
Qed.

Lemma step_CycleSaves_nil ph w :
  ph = Serving ∨ ph = ShuttingDown →
  persisting w = [] →
  step (ph, w) CycleSaves = (ph, w).
Proof.
  intros [-> | ->] Hp; cbn [step]; unfold next_save; by rewrite Hp.
Qed.

(** A cycle that no other goroutine interleaves with is the cycle taken
    save by save. *)
Lemma cycle_in_steps ph w :
  persisting w = [] →
  run (ph, w) [CycleBegins; CycleSaves; CycleSaves; CycleSaves; CycleSaves]
  = step (ph, w) Tick.
Proof.
  intros Hp.
  assert (ph = Serving ∨ ph = ShuttingDown ∨ ∃ c, ph = Exited c) as Hph
    by (destruct ph; eauto).
  destruct Hph as [Hph|[Hph|[c ->]]]; [| |reflexivity].
  all: assert (ph = Serving ∨ ph = ShuttingDown) as Hph' by tauto.
  all: unfold run; cbn [fold_left].
  all: replace (step (ph, w) CycleBegins)
         with (ph, begin_cycle (cachePath (vars w)) w)
         by (subst ph; cbn [step]; by rewrite Hp).
  all: replace (step (ph, w) Tick)
         with (ph, persistCache (cachePath (vars w)) w)
         by (subst ph; reflexivity).
  all: unfold begin_cycle, persistCache; destruct (stopping w) eqn:Hs.
  1,3: by rewrite !(step_CycleSaves_nil ph) by done.
  all: set (p := cachePath (vars w)).
  all: rewrite (step_CycleSaves ph _ _ _ p Hph') by reflexivity.
  all: rewrite (step_CycleSaves ph _ _ _ p Hph') by (by rewrite save_vars).
  all: rewrite (step_CycleSaves ph _ _ _ p Hph') by (by rewrite !save_vars).
  all: rewrite (step_CycleSaves ph _ _ _ p Hph') by (by rewrite !save_vars).
  all: cbn [store_label]; f_equal; f_equal.
  all: etransitivity; [|apply set_persisting_same].
  all: f_equal; rewrite !save_persisting; cbn [persisting log_Println].
  all: by rewrite Hp.
Qed.

(** A signal that arrives after the first save of a cycle does not stop
    the cycle: the torrent snapshot is written after the flag is set. *)
Lemma cycle_under_way_finishes_after_signal :
  fst (run (Serving, Sample.started) Sample.signal_mid_cycle) = Exited 1
  ∧ files (disk (snd (run (Serving, Sample.started)
                        (take 5 Sample.signal_mid_cycle))))
      !! "/home/deflix/.cache/deflix-stremio/cache/torrent" = None
  ∧ files (disk (snd (run (Serving, Sample.started) Sample.signal_mid_cycle)))
      !! "/home/deflix/.cache/deflix-stremio/cache/torrent"
    = Some (torrentCache (snd (run (Serving, Sample.started)
                                 Sample.signal_mid_cycle))).
Proof. repeat split; vm_compute; reflexivity. Qed.

(** The process is told to stop with a credential in the token store;
    it exits, through [log.Fatal] in the goroutine of
    [srv.ListenAndServe], with no snapshot file for the token store. *)
Lemma final_flush_counterexample :
  fst (run (Serving, Sample.started) Sample.token_then_stop) = Exited 1
  ∧ entries (tokenCache (snd (run (Serving, Sample.started) Sample.token_then_stop)))
      !! "apitoken" = Some "2019-12-24T18:00:00Z"
  ∧ ¬ flushed (snd (run (Serving, Sample.started) Sample.token_then_stop)).
Proof.
  split; [vm_compute; reflexivity|].
  split; [vm_compute; reflexivity|].
  intros H. specialize (H Token). vm_compute in H. discriminate H.
Qed.

(** *** Snapshot files at startup *)

Lemma append_inj_r (p a b : string) : p +:+ a = p +:+ b → a = b.
Proof. induction p as [|c p IH]; cbn; [done|]. intros [= H]. auto. Qed.

Lemma file_of_inj s t : file_of s = file_of t → s = t.
Proof. destruct s, t; cbn; intros H; first [reflexivity | discriminate H]. Qed.

Lemma snapshot_path_inj p s t :
  p +:+ file_of s = p +:+ file_of t → s = t.
Proof. intros H. apply file_of_inj, (append_inj_r p), H. Qed.

Lemma snapshot_files_NoDup p : NoDup (snapshot_files p).
Proof.
  unfold snapshot_files. cbn [map].
  repeat (apply NoDup_cons; split;
          [rewrite ?elem_of_cons, elem_of_nil;
           intros H; repeat destruct H as [H|H]; try done;
           apply snapshot_path_inj in H; discriminate H|]).
  apply NoDup_nil_2.
Qed.

Lemma startup_loads ParseInt args ucd d w :
  startup ParseInt args ucd d = Running w →
  ∀ s, cache_of s w
       = LoadFromFileOrNew d (cachePath (vars w) +:+ file_of s) 33554432.
Proof.
  intros Hrun.
  destruct (startup_Running _ _ _ _ _ Hrun) as (dir & cl & -> & ->).
  intros []; reflexivity.
Qed.

(** C6: a server that gets to run has loaded four snapshot files, at
    four different paths under the cache directory, one into each of
    its four stores; a store whose file is absent starts empty; and
    whether the server gets to run does not depend on what is on the
    disk, so a missing file never makes startup fail. *)
Theorem startup_tolerates_missing_snapshots ParseInt args ucd d w :
  startup ParseInt args ucd d = Running w →
  NoDup (snapshot_files (cachePath (vars w)))
  ∧ (∀ s, cache_of s w
          = LoadFromFileOrNew d (cachePath (vars w) +:+ file_of s) 33554432)
  ∧ (∀ s, files d !! (cachePath (vars w) +:+ file_of s) = None →
          entries (cache_of s w) = ∅)
  ∧ (∀ d', ∃ w', startup ParseInt args ucd d' = Running w').
Proof.
  intros Hrun.
  pose proof (startup_loads _ _ _ _ _ Hrun) as Hload.
  split; [apply snapshot_files_NoDup|].
  split; [exact Hload|].
  split.
  - intros s Habsent. rewrite Hload. unfold LoadFromFileOrNew.
    rewrite Habsent. reflexivity.
  - intros d'. revert Hrun. unfold startup.
    destruct package_init as [v cl0].
    destruct (Flag.Parse ParseInt cl0 args); [|discriminate].
    destruct (if String.eqb (cachePath v) "" then _ else _);
      [|discriminate].
    intros _. eexists. reflexivity.
Qed.

Lemma startup_tolerates_missing_snapshots_witness :
  startup Sample.ParseDecimal Sample.args (Some Sample.home) Sample.empty_disk
    = Running Sample.started
  ∧ entries (cache_of Redirect Sample.started) = ∅.
Proof.
  split; [vm_compute; reflexivity|].
  destruct (startup_tolerates_missing_snapshots Sample.ParseDecimal
              Sample.args (Some Sample.home) Sample.empty_disk Sample.started)
    as (_ & _ & Hempty & _); [vm_compute; reflexivity|].
  apply Hempty. reflexivity.
Defined.

(** *** Snapshot, then restore *)

Lemma save_lookup s what p w t :
  p +:+ file_of s ∉ unwritable (disk w) →
  files (disk (save s what p w)) !! (p +:+ file_of t)
  = if decide (s = t) then Some (cache_of s w)
    else files (disk w) !! (p +:+ file_of t).
Proof.
  intros Hw. rewrite save_files by exact Hw.
  destruct (decide (s = t)) as [->|Hne].
  - apply lookup_insert_eq.
  - apply lookup_insert_ne. intros H. apply Hne, (snapshot_path_inj p), H.
Qed.

(** A cycle that runs and can write leaves every store's snapshot in
    the store's own file. *)
Lemma persistCache_files p w :
  stopping w = false →
  (∀ s, p +:+ file_of s ∉ unwritable (disk w)) →
  ∀ s, files (disk (persistCache p w)) !! (p +:+ file_of s)
       = Some (cache_of s w).
Proof.
  intros Hs Hw s. unfold persistCache. rewrite Hs.
  rewrite log_Println_disk.
  set (w0 := log_Println _ w).
  set (w1 := save Token "token" p w0).
  set (w2 := save Availability "availability" p w1).
  set (w3 := save Torrent "torrent" p w2).
  pose proof (log_Println_frame ("Persisting caches to " +:+ p +:+ "...") w)
    as (_ & _ & U0 & C0). fold w0 in U0, C0.
  pose proof (save_frame Token "token" p w0) as (_ & _ & U1 & C1).
  fold w1 in U1, C1.
  pose proof (save_frame Availability "availability" p w1) as (_ & _ & U2 & C2).
  fold w2 in U2, C2.
  pose proof (save_frame Torrent "torrent" p w2) as (_ & _ & U3 & C3).
  fold w3 in U3, C3.
  assert (∀ t, p +:+ file_of t ∉ unwritable (disk w0)) as W0
    by (intros t; rewrite U0; apply Hw).
  assert (∀ t, p +:+ file_of t ∉ unwritable (disk w1)) as W1
    by (intros t; rewrite U1; apply W0).
  assert (∀ t, p +:+ file_of t ∉ unwritable (disk w2)) as W2
    by (intros t; rewrite U2; apply W1).
  assert (∀ t, p +:+ file_of t ∉ unwritable (disk w3)) as W3
    by (intros t; rewrite U3; apply W2).
  rewrite save_lookup by apply W3.
  destruct (decide (Redirect = s)) as [<-|N3];
    [by rewrite C3, C2, C1, C0|].
  unfold w3 at 1. rewrite save_lookup by apply W2.
  destruct (decide (Torrent = s)) as [<-|N2];
    [by rewrite C2, C1, C0|].
  unfold w2 at 1. rewrite save_lookup by apply W1.
  destruct (decide (Availability = s)) as [<-|N1];
    [by rewrite C1, C0|].
  unfold w1 at 1. rewrite save_lookup by apply W0.
  destruct (decide (Token = s)) as [<-|N0];
    [by rewrite C0|].
  destruct s; congruence.
Qed.

Lemma run_cons st ev evs : run st (ev :: evs) = run (step st ev) evs.
Proof. reflexivity. Qed.

(** While the server is serving, the shutdown flag is unset and the
    package variables stay as startup left them. *)
Lemma run_Serving evs :
  ∀ w0 w,
    stopping w0 = false →
    run (Serving, w0) evs = (Serving, w) →
    vars w = vars w0 ∧ stopping w = false.
Proof.
  induction evs as [|ev evs IH]; intros w0 w Hs Hrun.
  - injection Hrun as <-. by split.
  - rewrite run_cons in Hrun.
    destruct ev as [|s e| |err| | |]; cbn [step] in Hrun.
    + destruct (persistCache_frame (cachePath (vars w0)) w0) as (Hv & Hs' & _).
      destruct (IH _ _ (eq_trans Hs' Hs) Hrun) as (? & ?).
      split; congruence.
    + destruct (IH (set_entries s e w0) w Hs Hrun) as (? & ?). by split.
    + exfalso.
      destruct (shutting_down_stays evs ShuttingDown
                  (set_stopping true
                     (log_Println "Received signal. Shutting down..." w0)))
        as (Hph & _); [done|reflexivity|].
      apply Hph. rewrite Hrun. reflexivity.
    + exact (IH w0 w Hs Hrun).
    + destruct (persisting w0); [|exact (IH w0 w Hs Hrun)].
      destruct (begin_cycle_frame (cachePath (vars w0)) w0)
        as ((Hv & Hs' & _) & _).
      destruct (IH _ _ (eq_trans Hs' Hs) Hrun) as (? & ?).
      split; congruence.
    + destruct (next_save_frame (cachePath (vars w0)) w0) as (Hv & Hs' & _).
      destruct (IH _ _ (eq_trans Hs' Hs) Hrun) as (? & ?).
      split; congruence.
    + exact (IH w0 w Hs Hrun).
Qed.

(** C7: snapshot, then restore.  Take a server that was started and has
    been serving, with whatever its four stores hold by now; let the
    persistence cycle run with the snapshot paths writable, and start
    the program again on the resulting disk: each of the four stores
    of the new process is the store of the old one as it was when the
    snapshot was taken, the same ceiling and the same entries, key by
    key and value by value, and with them whatever expiry data the
    values carry. *)
Theorem snapshot_restore_roundtrip
    ParseInt args args' dir d w1 evs w w2 :
  startup ParseInt args (Some dir) d = Running w1 →
  run (Serving, w1) evs = (Serving, w) →
  (∀ s, cachePath (vars w) +:+ file_of s ∉ unwritable (disk w)) →
  startup ParseInt args' (Some dir)
    (disk (persistCache (cachePath (vars w)) w)) = Running w2 →
  ∀ s, cache_of s w2 = cache_of s w.
Proof.
  intros H1 Hrun Hw H2 s.
  destruct (startup_Running _ _ _ _ _ H1) as (dir1 & cl1 & [= <-] & E1).
  destruct (run_Serving evs w1 w) as (Hv & Hs);
    [by rewrite E1|exact Hrun|].
  pose proof (startup_loads _ _ _ _ _ H2) as Hload.
  destruct (startup_Running _ _ _ _ _ H2) as (dir2 & cl2 & [= <-] & E2).
  assert (cachePath (vars w2) = cachePath (vars w)) as Hp
    by (rewrite Hv, E1, E2; reflexivity).
  rewrite Hload, Hp. unfold LoadFromFileOrNew.
  rewrite (persistCache_files _ _ Hs Hw s). reflexivity.
Qed.

Lemma snapshot_restore_roundtrip_witness :
  run (Serving, Sample.started) Sample.busy_hour = (Serving, Sample.served)
  ∧ startup Sample.ParseDecimal [] (Some Sample.home)
      (disk (persistCache (cachePath (vars Sample.served)) Sample.served))
    = Running Sample.restarted
  ∧ torrentCache Sample.restarted = torrentCache Sample.served
  ∧ entries (torrentCache Sample.restarted) !! "tt0133093"
    = Some "magnet:?xt=urn:btih:aa".
Proof.
  split; [vm_compute; reflexivity|].
  split; [vm_compute; reflexivity|].
  assert (cache_of Torrent Sample.restarted = cache_of Torrent Sample.served)
    as H.
  { apply (snapshot_restore_roundtrip Sample.ParseDecimal Sample.args []
             Sample.home Sample.empty_disk Sample.started Sample.busy_hour
             Sample.served Sample.restarted).
    - vm_compute; reflexivity.
    - vm_compute; reflexivity.
    - intros s.
      replace (unwritable (disk Sample.served))
        with (∅ : gset string) by (vm_compute; reflexivity).
      apply not_elem_of_empty.
    - vm_compute; reflexivity. }
  split; [exact H|].
  cbn [cache_of] in H. rewrite H. vm_compute; reflexivity.
Defined.

End MainFacts.

(** * Properties of the router *)

Section RouterFacts.

Import Router.

Lemma find_route_elem_of rs p r vs :
  find_route rs p = Some (r, vs) → r ∈ rs.
Proof.
  induction rs as [|r' rs IH]; cbn; [discriminate|].
  destruct (match_path (template r') p).
  - intros [= <- _]. left.
  - intros H. right. auto.
Qed.

(** A player follows a redirect link; the validator would turn every
    credential away, and the redirect handler runs all the same, with no
    validation before it. *)
Lemma redirect_without_gate_counterexample :
  Subrouter_ServeHTTP Sample.deny_all s Sample.follow_link
  = [Enter timerMiddleware; Enter corsMiddleware; Enter ProxyHeaders;
     Enter recoveryMiddleware; Enter loggingMiddleware;
     HandlerRun redirectHandler]
  ∧ validated_before redirectHandler
      (Subrouter_ServeHTTP Sample.deny_all s Sample.follow_link) = false.
Proof. split; vm_compute; reflexivity. Qed.

Lemma serve_gate Validate req :
  validated_before manifestHandler (serve Validate s req) = true
  ∧ validated_before streamHandler (serve Validate s req) = true
  ∧ (runs redirectHandler (serve Validate s req) = true →
     validates (serve Validate s req) = false).
Proof.
  unfold serve. destruct (bool_decide _); [|by repeat split].
  destruct (find_route (routes s) (path req)) as [[r vs]|] eqn:Hfind;
    [|by repeat split].
  apply find_route_elem_of in Hfind.
  cbn [routes s] in Hfind.
  repeat (apply elem_of_cons in Hfind as [->|Hfind]);
    [..|by apply elem_of_nil in Hfind];
    cbn; try destruct (Validate _); cbn; by repeat split.
Qed.

(** C2, as the code has it: the token middleware is used for the two
    Stremio endpoints only.  Whenever the manifest handler or the
    stream handler runs, the token middleware has validated the
    credential of the request path first; the redirect endpoint is
    registered without the token middleware, so whenever the redirect
    handler runs, no validation of a credential has come before it. *)
Theorem gate_on_stremio_endpoints_only Validate req :
  validated_before manifestHandler (Subrouter_ServeHTTP Validate s req) = true
  ∧ validated_before streamHandler (Subrouter_ServeHTTP Validate s req) = true
  ∧ (runs redirectHandler (Subrouter_ServeHTTP Validate s req) = true →
     validates (Subrouter_ServeHTTP Validate s req) = false).
Proof.
  unfold Subrouter_ServeHTTP.
  destruct (String.eqb _ _); [apply serve_gate|by repeat split].
Qed.

End RouterFacts.

(** * Properties of the search aggregator *)

Section SearchFacts.

Import Search.

Variable rank : string -> Z.
Variable ttl : Z.

Lemma merge_into_hash c acc x :
  x ∈ infoHash <$> merge_into c acc →
  x = infoHash c ∨ x ∈ infoHash <$> acc.
Proof.
  induction acc as [|d acc IH]; cbn [merge_into].
  - rewrite list_fmap_singleton, list_elem_of_singleton. by left.
  - destruct (String.eqb (infoHash d) (infoHash c)).
    + rewrite !fmap_cons. cbn [infoHash]. by right.
    + rewrite !fmap_cons, !elem_of_cons. intros [->|H]; [right; by left|].
      destruct (IH H) as [->|?]; [by left|right; by right].
Qed.

Lemma merge_into_NoDup c acc :
  NoDup (infoHash <$> acc) → NoDup (infoHash <$> merge_into c acc).
Proof.
  induction acc as [|d acc IH]; cbn [merge_into].
  - intros _. rewrite list_fmap_singleton. apply NoDup_singleton.
  - rewrite fmap_cons. intros Hnd. apply NoDup_cons in Hnd as [Hd Hnd].
    destruct (String.eqb (infoHash d) (infoHash c)) eqn:E.
    + rewrite fmap_cons. cbn [infoHash]. apply NoDup_cons. by split.
    + rewrite fmap_cons. apply NoDup_cons. split; [|by apply IH].
      intros Hin. apply merge_into_hash in Hin as [Heq|Hin]; [|by apply Hd].
      apply String.eqb_neq in E. by apply E.
Qed.

(** Merging loses no info-hash. *)
Lemma merge_into_keeps c acc x :
  x = infoHash c ∨ x ∈ infoHash <$> acc →
  x ∈ infoHash <$> merge_into c acc.
Proof.
  induction acc as [|d acc IH]; cbn [merge_into].
  - rewrite list_fmap_singleton, list_elem_of_singleton, fmap_nil, elem_of_nil.
    tauto.
  - destruct (String.eqb (infoHash d) (infoHash c)) eqn:E.
    + apply String.eqb_eq in E.
      rewrite !fmap_cons, !elem_of_cons. cbn [infoHash].
      intros [->|[->|H]]; auto.
    + rewrite !fmap_cons, !elem_of_cons. intros [->|[->|H]]; auto.
Qed.

Lemma dedup_from_NoDup l :
  ∀ acc, NoDup (infoHash <$> acc) →
         NoDup (infoHash <$> fold_left (fun acc c => merge_into c acc) l acc).
Proof.
  induction l as [|c l IH]; intros acc Hnd; cbn [fold_left]; [done|].
  apply IH, merge_into_NoDup, Hnd.
Qed.

Lemma dedup_NoDup l : NoDup (infoHash <$> dedup l).
Proof. apply dedup_from_NoDup. apply NoDup_nil_2. Qed.

Lemma dedup_from_keeps l :
  ∀ acc x,
    x ∈ infoHash <$> fold_left (fun acc c => merge_into c acc) l acc
    ↔ x ∈ infoHash <$> l ∨ x ∈ infoHash <$> acc.
Proof.
  induction l as [|c l IH]; intros acc x; cbn [fold_left].
  - rewrite fmap_nil, elem_of_nil. tauto.
  - rewrite IH, fmap_cons, elem_of_cons. split.
    + intros [H|H]; [tauto|].
      apply merge_into_hash in H as [->|H]; tauto.
    + intros [[->|H]|H]; [right| tauto |right];
        apply merge_into_keeps; auto.
Qed.

(** Deduplication keeps exactly the info-hashes that were found. *)
Lemma dedup_hashes l x :
  x ∈ infoHash <$> dedup l ↔ x ∈ infoHash <$> l.
Proof.
  unfold dedup. rewrite dedup_from_keeps, fmap_nil, elem_of_nil. tauto.
Qed.

Lemma sorted_NoDup l :
  NoDup (infoHash <$> l) →
  NoDup (infoHash <$> merge_sort (better rank) l).
Proof. intros Hnd. by rewrite merge_sort_Permutation. Qed.

Lemma Search_distinct now movieID answers cache :
  cache_distinct cache →
  NoDup (infoHash <$> (fst (fst (Search rank ttl now movieID answers cache))))
  ∧ cache_distinct (snd (Search rank ttl now movieID answers cache)).
Proof.
  intros Hc. unfold Search.
  assert (NoDup (infoHash <$>
                   merge_sort (better rank) (dedup (found answers))))
    as Hfresh by apply sorted_NoDup, dedup_NoDup.
  assert (cache_distinct
            (<[movieID := (now + ttl,
                           merge_sort (better rank) (dedup (found answers)))]>
               cache)) as Hins.
  { intros k e cs. rewrite lookup_insert.
    destruct (decide (movieID = k)); [intros [= _ <-]; exact Hfresh|apply Hc]. }
  destruct (cache !! movieID) as [[expires cached]|] eqn:Hget; [|by split].
  destruct (now <? expires)%Z; [|by split].
  split; [exact (Hc _ _ _ Hget)|exact Hc].
Qed.

Lemma searches_distinct reqs :
  ∀ cache,
    cache_distinct cache →
    Forall (fun r => NoDup (infoHash <$> fst r))
      (searches rank ttl reqs cache).
Proof.
  induction reqs as [|[[now movieID] answers] reqs IH]; intros cache Hc;
    cbn [searches]; [constructor|].
  destruct (Search_distinct now movieID answers cache Hc) as [Hr Hc'].
  destruct (Search rank ttl now movieID answers cache) as [r cache'].
  constructor; [exact Hr|apply IH, Hc'].
Qed.

(** C8: whatever the indexer adapters deliver and whenever the searches
    are made, no sequence of candidates returned by [Search] holds two
    entries with the same info-hash: what comes from the adapters is
    deduplicated by info-hash before it is cached and returned, and
    what comes from the cache was deduplicated when it was written. *)
Theorem search_results_have_distinct_hashes reqs :
  Forall (fun r => NoDup (infoHash <$> fst r))
    (searches rank ttl reqs ∅).
Proof.
  apply searches_distinct. intros k e cs. by rewrite lookup_empty.
Qed.

End SearchFacts.

(** * Properties of the redirect resolver and of the stream endpoint *)

Section RedirectFacts.

Import Redirect.

(** C9: a ticket whose own lifetime has elapsed is refused with
    [TicketExpired], and nothing else happens: the state is unchanged,
    the provider is not called, and the cache of unlocked streams is
    not consulted, so a still valid entry for the ticket's info-hash
    makes no difference. *)
Theorem expired_ticket_is_refused
    ticket_ttl provider_unlock now session id t st :
  tickets st !! id = Some t →
  (t_created t + ticket_ttl ≤ now)%Z →
  Resolve ticket_ttl provider_unlock now session id st
  = (inr TicketExpired, st).
Proof.
  intros Ht Hexp. unfold Resolve, live_ticket. rewrite Ht.
  destruct (Z.ltb_spec now (t_created t + ticket_ttl)); [lia|reflexivity].
Qed.

Lemma expired_ticket_is_refused_witness :
  fst (Resolve 3600 Sample.unlocks_all 100 "apitoken" "0" Sample.issued)
  = inl "https://provider.example/d/aa?token=apitoken"
  ∧ cached_stream 3600 "aa" Sample.resolved
    = Some "https://provider.example/d/aa?token=apitoken"
  ∧ Resolve 3600 Sample.unlocks_all 3600 "apitoken" "0" Sample.resolved
    = (inr TicketExpired, Sample.resolved).
Proof.
  split; [vm_compute; reflexivity|].
  split; [vm_compute; reflexivity|].
  apply (expired_ticket_is_refused 3600 Sample.unlocks_all 3600 "apitoken"
           "0" (mkTicket "aa" "1080p" 0) Sample.resolved).
  - vm_compute; reflexivity.
  - cbn. lia.
Defined.

End RedirectFacts.

Section StreamFacts.

Import Search Redirect Stream.

Variable base : string.
Variable rank : string -> Z.
Variable torrent_ttl availability_ttl : Z.
Variable provider_check : string -> list string -> gmap string bool.
Variable selector : TorrentCandidate -> string.

Lemma issue_all_cons now c cs st :
  issue_all base selector now (c :: cs) st
  = (mkItem (title c) (redirectURL base (pretty (next_id st)))
       :: fst (issue_all base selector now cs
                 (snd (IssueTicket base now (infoHash c) (selector c) st))),
     snd (issue_all base selector now cs
            (snd (IssueTicket base now (infoHash c) (selector c) st)))).
Proof.
  cbn [issue_all]. unfold IssueTicket. cbn [snd].
  destruct (issue_all _ _ _ _ _); reflexivity.
Qed.

(** Issuing tickets touches neither the unlocked streams nor the
    provider, and leaves every ticket issued earlier in place. *)
Lemma issue_all_frame now cs :
  ∀ st,
    unlocked (snd (issue_all base selector now cs st)) = unlocked st
    ∧ unlock_calls (snd (issue_all base selector now cs st)) = unlock_calls st
    ∧ (next_id st ≤ next_id (snd (issue_all base selector now cs st)))%N
    ∧ ∀ m, (m < next_id st)%N →
           tickets (snd (issue_all base selector now cs st)) !! pretty m
           = tickets st !! pretty m.
Proof.
  induction cs as [|c cs IH]; intros st.
  - cbn [issue_all snd]. split; [reflexivity|]. split; [reflexivity|].
    split; [lia|]. intros; reflexivity.
  - rewrite issue_all_cons. cbn [snd].
    destruct (IH (snd (IssueTicket base now (infoHash c) (selector c) st)))
      as (Hu & Hc & Hn & Ht).
    cbn [IssueTicket snd unlocked unlock_calls next_id tickets] in *.
    split; [exact Hu|]. split; [exact Hc|]. split; [lia|].
    intros m Hm. rewrite Ht by lia.
    apply lookup_insert_ne. intros Heq. apply (inj pretty) in Heq. lia.
Qed.

(** Each stream option carries the title of its candidate and the URL
    of a ticket issued for that candidate. *)
Lemma issue_all_items now cs :
  ∀ st,
    Forall2
      (fun c it =>
         item_title it = title c
         ∧ ∃ n, (next_id st ≤ n)%N
                ∧ item_url it = redirectURL base (pretty n)
                ∧ tickets (snd (issue_all base selector now cs st)) !! pretty n
                  = Some (mkTicket (infoHash c) (selector c) now))
      cs (fst (issue_all base selector now cs st)).
Proof.
  induction cs as [|c cs IH]; intros st; [constructor|].
  rewrite issue_all_cons. cbn [fst snd].
  pose proof (IH (snd (IssueTicket base now (infoHash c) (selector c) st)))
    as Htl.
  destruct (issue_all_frame now cs
              (snd (IssueTicket base now (infoHash c) (selector c) st)))
    as (_ & _ & _ & Ht).
  cbn [IssueTicket snd next_id tickets] in *.
  constructor.
  - split; [reflexivity|]. exists (next_id st).
    split; [lia|]. split; [reflexivity|].
    rewrite Ht by lia. apply lookup_insert_eq.
  - eapply Forall2_impl; [exact Htl|].
    intros c' it (Hti & n & Hn & Hurl & Hget). split; [exact Hti|].
    exists n. split; [lia|]. by split.
Qed.

(** The options issued depend on the resolver's ticket counter only. *)
Lemma issue_all_counter now cs :
  ∀ st st',
    next_id st = next_id st' →
    fst (issue_all base selector now cs st)
    = fst (issue_all base selector now cs st').
Proof.
  induction cs as [|c cs IH]; intros st st' Hn; [reflexivity|].
  rewrite !issue_all_cons. cbn [fst]. rewrite Hn. f_equal.
  apply IH. cbn. by rewrite Hn.
Qed.

(** C1: every stream option returned by the stream endpoint carries the
    URL [{base}/redirect/{ticketID}] of a ticket the resolver issued
    while handling this request; the handler makes no [Unlock] call and
    leaves the unlocked streams as they were, and its response is the
    same whatever direct URLs the resolver holds and whatever the
    provider has unlocked before: no direct URL of the provider can
    reach the client through it. *)
Theorem stream_urls_are_ticket_urls now session movieID answers st :
  Forall
    (fun it =>
       ∃ id t,
         item_url it = redirectURL base id
         ∧ tickets (resolver (snd (streamHandler base rank torrent_ttl
                                     availability_ttl provider_check selector
                                     now session movieID answers st))) !! id
           = Some t
         ∧ t_created t = now)
    (fst (streamHandler base rank torrent_ttl availability_ttl provider_check
            selector now session movieID answers st))
  ∧ unlock_calls (resolver (snd (streamHandler base rank torrent_ttl
                                   availability_ttl provider_check selector
                                   now session movieID answers st)))
    = unlock_calls (resolver st)
  ∧ unlocked (resolver (snd (streamHandler base rank torrent_ttl
                               availability_ttl provider_check selector
                               now session movieID answers st)))
    = unlocked (resolver st)
  ∧ ∀ streams calls,
      fst (streamHandler base rank torrent_ttl availability_ttl
             provider_check selector now session movieID answers
             (Stream.mkState (torrents st) (debrid st)
                (Redirect.mkState (tickets (resolver st)) streams
                   (next_id (resolver st)) calls)))
      = fst (streamHandler base rank torrent_ttl availability_ttl
               provider_check selector now session movieID answers st).
Proof.
  unfold streamHandler. cbn [torrents debrid resolver].
  destruct (Search rank torrent_ttl now movieID answers (torrents st))
    as [[cands partial] torrents'].
  destruct (Debrid.CheckAvailability provider_check availability_ttl now
              session (map infoHash cands) (debrid st)) as [avail debrid'].
  set (available := List.filter _ cands).
  pose proof (issue_all_items now available (resolver st)) as Hitems.
  destruct (issue_all_frame now available (resolver st)) as (Hu & Hc & _ & _).
  split; [|split; [|split]].
  - destruct (issue_all base selector now available (resolver st))
      as [items rst]. cbn [fst snd resolver] in *.
    apply Forall2_Forall_r with (l := available)
      (Q := fun it => ∃ id t, item_url it = redirectURL base id
                            ∧ tickets rst !! id = Some t ∧ t_created t = now)
      in Hitems; [exact Hitems|].
    apply Forall_true. intros c it (_ & n & _ & Hurl & Hget).
    exists (pretty n), (mkTicket (infoHash c) (selector c) now).
    by repeat split.
  - destruct (issue_all base selector now available (resolver st)); exact Hc.
  - destruct (issue_all base selector now available (resolver st)); exact Hu.
  - intros streams calls.
    pose proof (issue_all_counter now available
                  (Redirect.mkState (tickets (resolver st)) streams
                     (next_id (resolver st)) calls)
                  (resolver st) eq_refl) as Heq.
    destruct (issue_all base selector now available (Redirect.mkState _ _ _ _)).
    destruct (issue_all base selector now available (resolver st)).
    exact Heq.
Qed.

End StreamFacts.

(** The torrent two indexers report comes back once, with both sources;
    the failed indexer makes the result partial; the stream options carry
    ticket URLs. *)
Lemma Search_example :
  fst (Search.Search Sample.rank 3600 0 "tt0133093" Sample.answers ∅)
  = ([Search.mkCandidate "The Matrix" "1080p" "aa" 1800 ["YTS"; "TPB"];
      Search.mkCandidate "The Matrix" "720p" "bb" 900 ["YTS"]], true).
Proof. vm_compute. reflexivity. Qed.

Lemma streamHandler_example :
  fst (Stream.streamHandler "http://localhost:8080" Sample.rank 3600 600
         Sample.all_available (fun c => Search.quality c) 0 "apitoken"
         "tt0133093" Sample.answers Sample.fresh_pipeline)
  = [Stream.mkItem "The Matrix" "http://localhost:8080/redirect/0";
     Stream.mkItem "The Matrix" "http://localhost:8080/redirect/1"].
Proof. vm_compute. reflexivity. Qed.

(** * Concurrent calls of the resolver *)

Section SingleFlightFacts.

Import Debrid Redirect SingleFlight.

Variable ticket_ttl : Z.
Variable provider_unlock :
  string -> string -> string -> Z -> (string * Z) + unlock_error.













Lemma run_step sh it schedule :
  run ticket_ttl provider_unlock sh (it :: schedule)
  = run ticket_ttl provider_unlock (step ticket_ttl provider_unlock sh it)
      schedule.
Proof. reflexivity. Qed.

Lemma run_Done st fl r schedule :
  Forall (fun it => fst it = 0%nat) schedule →
  run ticket_ttl provider_unlock (mkShared st fl [Done r]) schedule
  = mkShared st fl [Done r].
Proof.
  induction schedule as [|[i now] schedule IH]; intros Hs; [reflexivity|].
  apply Forall_cons in Hs as [Hi Hs]. cbn in Hi. subst i.
  rewrite run_step. exact (IH Hs).
Qed.

(** A call on its own goes through the steps of [Resolve]. *)
Lemma lone_call_is_Resolve st session id now :
  run ticket_ttl provider_unlock (arrive st [(session, id)])
    (replicate 5 (0%nat, now))
  = mkShared (snd (Resolve ticket_ttl provider_unlock now session id st)) ∅
      [Done (fst (Resolve ticket_ttl provider_unlock now session id st))].
Proof.
  unfold arrive, Resolve, Unlock. cbn [replicate map].
  rewrite run_step.
  replace (step ticket_ttl provider_unlock
             (mkShared st ∅ [Start session id]) (0%nat, now))
    with (match live_ticket ticket_ttl now id st with
          | None => mkShared st ∅ [Done (inr TicketExpired)]
          | Some t => mkShared st ∅ [Ticketed session t]
          end)
    by (unfold step; cbn; by destruct (live_ticket _ _ _ _)).
  destruct (live_ticket ticket_ttl now id st) as [t|];
    [|apply run_Done; by repeat constructor].
  rewrite run_step.
  replace (step ticket_ttl provider_unlock
             (mkShared st ∅ [Ticketed session t]) (0%nat, now))
    with (match cached_stream now (t_hash t) st with
          | Some url => mkShared st ∅ [Done (inl url)]
          | None =>
              mkShared st ∅ [Unlocking session (t_hash t) (t_selector t)]
          end)
    by (unfold step; cbn; by destruct (cached_stream _ _ _)).
  destruct (cached_stream now (t_hash t) st) as [url|];
    [apply run_Done; by repeat constructor|].
  rewrite run_step.
  replace (step ticket_ttl provider_unlock
             (mkShared st ∅ [Unlocking session (t_hash t) (t_selector t)])
             (0%nat, now))
    with (mkShared (call_provider (t_hash t) st) ({[t_hash t]} ∪ ∅)
            [Leader session (t_hash t) (t_selector t)])
    by (unfold step; cbn [calls lookup list_lookup inflight];
        by rewrite decide_False by apply not_elem_of_empty).
  rewrite run_step.
  replace (step ticket_ttl provider_unlock
             (mkShared (call_provider (t_hash t) st) ({[t_hash t]} ∪ ∅)
                [Leader session (t_hash t) (t_selector t)]) (0%nat, now))
    with (mkShared (call_provider (t_hash t) st) ∅
            [Returned (t_hash t)
               (provider_unlock session (t_hash t) (t_selector t) now)])
    by (unfold step; cbn; f_equal; set_solver).
  rewrite run_step.
  replace (step ticket_ttl provider_unlock
             (mkShared (call_provider (t_hash t) st) ∅
                [Returned (t_hash t)
                   (provider_unlock session (t_hash t) (t_selector t) now)])
             (0%nat, now))
    with (mkShared
            (snd (store_answer (t_hash t)
                    (provider_unlock session (t_hash t) (t_selector t) now)
                    (call_provider (t_hash t) st))) ∅
            [Done (fst (store_answer (t_hash t)
                          (provider_unlock session (t_hash t) (t_selector t) now)
                          (call_provider (t_hash t) st)))])
    by (unfold step; cbn [calls lookup list_lookup resolver inflight];
        by destruct (store_answer _ _ _)).
  reflexivity.
Qed.

End SingleFlightFacts.


(** The same two callers, the second reaching [Unlock] while the first
    one's call is in flight: it waits, and the provider is asked once. *)
Lemma callers_in_flight_share_example :
  SingleFlight.calls
    (SingleFlight.run 3600 Sample.unlocks_all
       (SingleFlight.arrive Sample.issued Sample.two_clicks)
       Sample.overlapping)
  = [SingleFlight.Done (inl "https://provider.example/d/aa?token=apitoken");
     SingleFlight.Done (inl "https://provider.example/d/aa?token=apitoken")]
  ∧ SingleFlight.unlock_count "aa"
      (SingleFlight.resolver
         (SingleFlight.run 3600 Sample.unlocks_all
            (SingleFlight.arrive Sample.issued Sample.two_clicks)
            Sample.overlapping))
    = 1%nat.
Proof. repeat split; vm_compute; reflexivity. Qed.

(** * More on the persistence cycle *)

Section PersistFacts.

Import Main Fastcache Notions.

Lemma save_lookup_any s what p w k :
  files (disk (save s what p w)) !! k
  = save_effect p w k s (files (disk w) !! k).
Proof.
  unfold save, SaveToFileConcurrent, save_effect.
  destruct (decide (p +:+ file_of s ∈ unwritable (disk w))) as [Hu|Hu]; cbn.
  - destruct (decide (k = p +:+ file_of s)) as [->|]; [|reflexivity].
    by rewrite decide_True.
  - destruct (decide (k = p +:+ file_of s)) as [->|Hne].
    + rewrite decide_False by done. apply lookup_insert_eq.
    + apply lookup_insert_ne. congruence.
Qed.

Lemma save_effect_frame p w w' k s prev :
  only_files_and_log w w' →
  save_effect p w' k s prev = save_effect p w k s prev.
Proof.
  intros (_ & _ & Hu & Hc). unfold save_effect. by rewrite Hu, Hc.
Qed.

(** The files after a cycle that runs: the four saves, one after the
    other, each judged on the stores and the disk the cycle started
    with. *)
Lemma persistCache_lookup p w k :
  stopping w = false →
  files (disk (persistCache p w)) !! k
  = save_effect p w k Redirect
      (save_effect p w k Torrent
         (save_effect p w k Availability
            (save_effect p w k Token (files (disk w) !! k)))).
Proof.
  intros Hs. unfold persistCache. rewrite Hs, log_Println_disk.
  set (w0 := log_Println _ w).
  set (w1 := save Token "token" p w0).
  set (w2 := save Availability "availability" p w1).
  set (w3 := save Torrent "torrent" p w2).
  assert (only_files_and_log w w0) as F0 by apply log_Println_frame.
  assert (only_files_and_log w w1) as F1
    by (eapply only_files_and_log_trans; [exact F0|apply save_frame]).
  assert (only_files_and_log w w2) as F2
    by (eapply only_files_and_log_trans; [exact F1|apply save_frame]).
  assert (only_files_and_log w w3) as F3
    by (eapply only_files_and_log_trans; [exact F2|apply save_frame]).
  rewrite save_lookup_any, (save_effect_frame _ _ _ _ _ _ F3). f_equal.
  unfold w3. rewrite save_lookup_any, (save_effect_frame _ _ _ _ _ _ F2). f_equal.
  unfold w2. rewrite save_lookup_any, (save_effect_frame _ _ _ _ _ _ F1). f_equal.
  unfold w1. rewrite save_lookup_any, (save_effect_frame _ _ _ _ _ _ F0). f_equal.
Qed.

Ltac path_clash :=
  match goal with
  | H : ?p +:+ file_of ?a = ?p +:+ file_of ?b |- _ =>
      apply snapshot_path_inj in H; discriminate H
  end.

Lemma persistCache_own_file p w s :
  stopping w = false →
  p +:+ file_of s ∉ unwritable (disk w) →
  files (disk (persistCache p w)) !! (p +:+ file_of s) = Some (cache_of s w).
Proof.
  intros Hs Hw. rewrite persistCache_lookup by exact Hs. unfold save_effect.
  destruct s; repeat case_decide; try done; path_clash.
Qed.

Lemma persistCache_unwritable_file p w s :
  p +:+ file_of s ∈ unwritable (disk w) →
  files (disk (persistCache p w)) !! (p +:+ file_of s)
  = files (disk w) !! (p +:+ file_of s).
Proof.
  intros Hu. destruct (stopping w) eqn:Hs.
  - by rewrite (persistCache_stopping _ _ Hs).
  - rewrite persistCache_lookup by exact Hs. unfold save_effect.
    destruct s; repeat case_decide; try done; path_clash.
Qed.

Lemma persistCache_other_file p w k :
  k ∉ snapshot_files p →
  files (disk (persistCache p w)) !! k = files (disk w) !! k.
Proof.
  intros Hk. destruct (stopping w) eqn:Hs.
  - by rewrite (persistCache_stopping _ _ Hs).
  - rewrite persistCache_lookup by exact Hs. unfold save_effect.
    repeat case_decide; try done; exfalso; apply Hk; subst k;
      unfold snapshot_files; cbn [map]; set_solver.
Qed.

Lemma save_log_keeps s what p w x :
  x ∈ log w → x ∈ log (save s what p w).
Proof.
  intros Hx. unfold save, SaveToFileConcurrent.
  destruct (decide _); cbn; [|exact Hx].
  apply elem_of_app. by left.
Qed.

Lemma log_Println_keeps msg w x : x ∈ log w → x ∈ log (log_Println msg w).
Proof. intros Hx. cbn. apply elem_of_app. by left. Qed.

Lemma save_logs_failure s what p w :
  p +:+ file_of s ∈ unwritable (disk w) →
  ("Couldn't save " +:+ what +:+ " cache to file: "
     +:+ ("cannot create " +:+ (p +:+ file_of s)))
  ∈ log (save s what p w).
Proof.
  intros Hu. unfold save, SaveToFileConcurrent.
  rewrite decide_True by exact Hu. cbn.
  apply elem_of_app. right. apply list_elem_of_singleton. reflexivity.
Qed.

(** A save that fails is logged under the store's name, and the cycle
    goes on to its last line. *)
Lemma persistCache_logs_failure p w s :
  stopping w = false →
  p +:+ file_of s ∈ unwritable (disk w) →
  ("Couldn't save " +:+ name_of s +:+ " cache to file: "
     +:+ ("cannot create " +:+ (p +:+ file_of s)))
  ∈ log (persistCache p w)
  ∧ last (log (persistCache p w)) = Some "Persisted caches".
Proof.
  intros Hs Hu. unfold persistCache. rewrite Hs.
  set (w0 := log_Println _ w).
  set (w1 := save Token "token" p w0).
  set (w2 := save Availability "availability" p w1).
  set (w3 := save Torrent "torrent" p w2).
  set (w4 := save Redirect "redirect" p w3).
  assert (only_files_and_log w w0) as F0 by apply log_Println_frame.
  assert (only_files_and_log w w1) as F1
    by (eapply only_files_and_log_trans; [exact F0|apply save_frame]).
  assert (only_files_and_log w w2) as F2
    by (eapply only_files_and_log_trans; [exact F1|apply save_frame]).
  assert (only_files_and_log w w3) as F3
    by (eapply only_files_and_log_trans; [exact F2|apply save_frame]).
  split; [|cbn [log_Println log]; apply last_snoc].
  apply log_Println_keeps.
  destruct s; cbn [name_of].
  - do 3 apply save_log_keeps. apply save_logs_failure.
    destruct F0 as (_ & _ & -> & _). exact Hu.
  - do 2 apply save_log_keeps. apply save_logs_failure.
    destruct F1 as (_ & _ & -> & _). exact Hu.
  - apply save_log_keeps. apply save_logs_failure.
    destruct F2 as (_ & _ & -> & _). exact Hu.
  - apply save_logs_failure.
    destruct F3 as (_ & _ & -> & _). exact Hu.
Qed.


(** X2: a save that fails does not stop the cycle.  When the snapshot
    path of one store cannot be written, its file stays as it was, the
    failure is logged under the store's name, every store whose path can
    be written is saved all the same, and the cycle ends with its last
    log line. *)
Theorem failed_save_is_logged_and_isolated p w s :
  stopping w = false →
  p +:+ file_of s ∈ unwritable (disk w) →
  files (disk (persistCache p w)) !! (p +:+ file_of s)
  = files (disk w) !! (p +:+ file_of s)
  ∧ (∀ t, p +:+ file_of t ∉ unwritable (disk w) →
          files (disk (persistCache p w)) !! (p +:+ file_of t)
          = Some (cache_of t w))
  ∧ (∃ err, ("Couldn't save " +:+ name_of s +:+ " cache to file: " +:+ err)
            ∈ log (persistCache p w))
  ∧ last (log (persistCache p w)) = Some "Persisted caches".
Proof.
  intros Hs Hu.
  split; [by apply persistCache_unwritable_file|].
  split; [intros t Ht; by apply persistCache_own_file|].
  destruct (persistCache_logs_failure p w s Hs Hu) as (Hlog & Hlast).
  split; [eexists; exact Hlog|exact Hlast].
Qed.

(** X3: [persistCache] writes to the four snapshot paths under its
    directory and to nothing else: any other file is as before, and so
    are the stores in memory, the package variables, the shutdown flag
    and the set of unwritable paths. *)
Theorem persistCache_touches_only_its_files p w k :
  k ∉ snapshot_files p →
  files (disk (persistCache p w)) !! k = files (disk w) !! k
  ∧ only_files_and_log w (persistCache p w).
Proof.
  intros Hk. split; [by apply persistCache_other_file|apply persistCache_frame].
Qed.

(** X4: the cycle is idempotent on the disk: run twice in a row, with no
    write to a store in between, it leaves the files the first run
    left. *)
Theorem persistCache_twice_same_files p w :
  files (disk (persistCache p (persistCache p w)))
  = files (disk (persistCache p w)).
Proof.
  destruct (persistCache_frame p w) as (Hv & Hst & Hu & Hc).
  destruct (stopping w) eqn:Hs.
  - by rewrite (persistCache_stopping p (persistCache p w)) by congruence.
  - apply map_eq. intros k.
    rewrite (persistCache_lookup p (persistCache p w)) by congruence.
    rewrite !(save_effect_frame p w (persistCache p w))
      by apply persistCache_frame.
    rewrite persistCache_lookup by exact Hs.
    unfold save_effect. repeat case_decide; try done; subst k; path_clash.
Qed.

(** X5: a restart restores each store on its own.  After a cycle in a
    serving process, the program started again on the resulting disk
    gets back every store whose snapshot path could be written as it was
    saved; a store whose save failed comes back as the snapshot that was
    on the disk before the cycle, or empty when there was none. *)
Theorem restart_restores_each_store
    ParseInt args args' dir d w1 evs w w2 s :
  startup ParseInt args (Some dir) d = Running w1 →
  run (Serving, w1) evs = (Serving, w) →
  startup ParseInt args' (Some dir)
    (disk (persistCache (cachePath (vars w)) w)) = Running w2 →
  cache_of s w2
  = if decide (cachePath (vars w) +:+ file_of s ∈ unwritable (disk w))
    then LoadFromFileOrNew (disk w) (cachePath (vars w) +:+ file_of s) 33554432
    else cache_of s w.
Proof.
  intros H1 Hrun H2.
  destruct (startup_Running _ _ _ _ _ H1) as (dir1 & cl1 & [= <-] & E1).
  destruct (run_Serving evs w1 w) as (Hv & Hs); [by rewrite E1|exact Hrun|].
  pose proof (startup_loads _ _ _ _ _ H2) as Hload.
  destruct (startup_Running _ _ _ _ _ H2) as (dir2 & cl2 & [= <-] & E2).
  assert (cachePath (vars w2) = cachePath (vars w)) as Hp
    by (rewrite Hv, E1, E2; reflexivity).
  rewrite Hload, Hp. unfold LoadFromFileOrNew.
  destruct (decide _) as [Hu|Hu].
  - by rewrite persistCache_unwritable_file.
  - by rewrite persistCache_own_file.
Qed.




End PersistFacts.

Section PersistExamples.

Import Main Fastcache.


Lemma failed_save_is_logged_and_isolated_witness :
  stopping Notions.served_readonly = false
  ∧ files (disk (persistCache (cachePath (vars Notions.served_readonly))
                   Notions.served_readonly))
      !! "/home/deflix/.cache/deflix-stremio/cache/token" = None
  ∧ files (disk (persistCache (cachePath (vars Notions.served_readonly))
                   Notions.served_readonly))
      !! "/home/deflix/.cache/deflix-stremio/cache/torrent"
    = Some (torrentCache Notions.served_readonly).
Proof.
  split; [vm_compute; reflexivity|].
  destruct (failed_save_is_logged_and_isolated
              (cachePath (vars Notions.served_readonly))
              Notions.served_readonly Main.Token)
    as (Hkept & Hsaved & _).
  - vm_compute; reflexivity.
  - replace (unwritable (disk Notions.served_readonly))
      with ({[ "/home/deflix/.cache/deflix-stremio/cache/token" ]} : gset string)
      by (vm_compute; reflexivity).
    apply elem_of_singleton. vm_compute. reflexivity.
  - split.
    + change "/home/deflix/.cache/deflix-stremio/cache/token"
        with (cachePath (vars Notions.served_readonly) +:+ file_of Main.Token).
      rewrite Hkept. vm_compute. reflexivity.
    + change "/home/deflix/.cache/deflix-stremio/cache/torrent"
        with (cachePath (vars Notions.served_readonly) +:+ file_of Main.Torrent).
      apply Hsaved.
      replace (unwritable (disk Notions.served_readonly))
        with ({[ "/home/deflix/.cache/deflix-stremio/cache/token" ]} : gset string)
        by (vm_compute; reflexivity).
      rewrite elem_of_singleton. vm_compute. discriminate.
Defined.

Lemma persistCache_touches_only_its_files_witness :
  files (disk (persistCache "/var/cache/deflix"
                 (set_disk
                    (mkFS {[ "/etc/hostname" := New 1 ]} ∅) Sample.served)))
    !! "/etc/hostname"
  = Some (New 1).
Proof.
  destruct (persistCache_touches_only_its_files "/var/cache/deflix"
              (set_disk (mkFS {[ "/etc/hostname" := New 1 ]} ∅) Sample.served)
              "/etc/hostname") as (-> & _).
  - unfold snapshot_files. cbn [map].
    rewrite !elem_of_cons, elem_of_nil.
    intros [H|[H|[H|[H|[]]]]]; vm_compute in H; discriminate H.
  - vm_compute. reflexivity.
Defined.

Lemma restart_restores_each_store_witness :
  run (Serving, Sample.started) Sample.busy_hour = (Serving, Sample.served)
  ∧ cache_of Main.Token Sample.restarted = cache_of Main.Token Sample.served.
Proof.
  split; [vm_compute; reflexivity|].
  rewrite (restart_restores_each_store Sample.ParseDecimal Sample.args []
             Sample.home Sample.empty_disk Sample.started Sample.busy_hour
             Sample.served Sample.restarted Main.Token).
  - rewrite decide_False; [reflexivity|].
    replace (unwritable (disk Sample.served))
      with (∅ : gset string) by (vm_compute; reflexivity).
    apply not_elem_of_empty.
  - vm_compute; reflexivity.
  - vm_compute; reflexivity.
  - vm_compute; reflexivity.
Defined.


End PersistExamples.

(** * More on the router *)

Section RoutingFacts.

Import GoStrings Router Notions.

Lemma append_String (c : ascii) (a b : string) :
  String c a +:+ b = String c (a +:+ b).
Proof. reflexivity. Qed.

Lemma append_empty_r (a : string) : a +:+ "" = a.
Proof.
  induction a as [|x a IH]; [reflexivity|].
  rewrite append_String. f_equal. exact IH.
Qed.

Lemma append_assoc_one (a : string) (c : ascii) (b : string) :
  (a +:+ String c EmptyString) +:+ b = a +:+ String c b.
Proof.
  induction a as [|x a IH]; [reflexivity|].
  rewrite !append_String. f_equal. exact IH.
Qed.

Lemma rev_app_append (a b : string) :
  String.rev_app a b = String.rev_app a EmptyString +:+ b.
Proof.
  revert b. induction a as [|x a IH]; intros b; cbn [String.rev_app];
    [reflexivity|].
  by rewrite (IH (String x b)), (IH (String x EmptyString)), append_assoc_one.
Qed.

(** A string without the separator is one piece. *)
Lemma Split_go_no_sep sep s :
  ∀ cur, no_sep sep s = true →
         Split_go sep s cur = [String.rev cur +:+ s].
Proof.
  induction s as [|c s IH]; intros cur Hs; cbn [Split_go].
  - by rewrite append_empty_r.
  - cbn [no_sep] in Hs. apply andb_true_iff in Hs as [Hc Hs].
    apply negb_true_iff in Hc. rewrite Hc, (IH _ Hs).
    unfold String.rev. cbn [String.rev_app].
    by rewrite (rev_app_append cur (String c EmptyString)), append_assoc_one.
Qed.

Lemma substring_end (s : string) : String.substring (String.length s) 0 s = "".
Proof. induction s as [|c s IH]; cbn; [reflexivity|exact IH]. Qed.

(** A variable without suffix matches any segment that is not empty. *)
Lemma match_segment_Var name seg :
  seg ≠ "" →
  ∃ v, match_segment (Var name "") seg = Some [(name, v)].
Proof.
  intros Hne. unfold match_segment, HasSuffix. cbn [String.length].
  rewrite Nat.sub_0_r, substring_end. cbn [Nat.leb String.eqb andb].
  destruct seg as [|c seg]; [done|]. cbn. eexists. reflexivity.
Qed.

Lemma Split_redirect id :
  no_sep "/" id = true →
  Split ("/redirect/" +:+ id) "/" = [""; "redirect"; id].
Proof.
  intros Hid. unfold Split.
  cbv beta iota fix delta [String.append].
  cbn [Split_go Ascii.eqb Bool.eqb].
  rewrite (Split_go_no_sep _ _ _ Hid). reflexivity.
Qed.

(** A template matches only paths with as many segments as it has. *)
Lemma match_segments_length ts :
  ∀ ss vs, match_segments ts ss = Some vs → length ts = length ss.
Proof.
  induction ts as [|t ts IH]; intros [|x ss] vs; cbn [match_segments];
    try discriminate; [reflexivity|].
  destruct (match_segment _ _); [|discriminate].
  destruct (match_segments ts ss) eqn:E; [|discriminate].
  intros _. cbn. f_equal. eapply IH. exact E.
Qed.

(** X7: every request that matches a route goes through the middleware
    of [s.Use] in the order listed, timer, CORS, proxy headers, recovery,
    logging, before anything else happens; after them either a single
    handler runs, as the last event, with or without a validated
    credential before it, or the request is turned away.  A request
    that matches no route reaches no middleware at all. *)
Theorem matched_requests_pass_through_Use Validate req :
  serve Validate s req = [NoMatch]
  ∨ ∃ tail,
      serve Validate s req = (through_Use ++ tail)%list
      ∧ ((∃ h, tail = [HandlerRun h])
         ∨ (∃ credential h, tail = [Validated credential; HandlerRun h])
         ∨ (∃ status, tail = [Rejected status])).
Proof.
  unfold serve. destruct (bool_decide _); [|by left].
  destruct (find_route (routes s) (path req)) as [[r vs]|] eqn:Hfind;
    [|by left].
  right. apply find_route_elem_of in Hfind. cbn [routes s] in Hfind.
  repeat (apply elem_of_cons in Hfind as [->|Hfind]);
    [..|by apply elem_of_nil in Hfind]; cbn.
  - eexists. split; [reflexivity|]. left. by eexists.
  - destruct (Validate _); eexists; (split; [reflexivity|]).
    + right. left. by eexists _, _.
    + right. right. by eexists.
    + right. right. by eexists.
  - destruct (Validate _); eexists; (split; [reflexivity|]).
    + right. left. by eexists _, _.
    + right. right. by eexists.
    + right. right. by eexists.
  - eexists. split; [reflexivity|]. left. by eexists.
Qed.

Lemma HasSuffix_slash_cons c s :
  s ≠ "" → HasSuffix (String c s) "/" = HasSuffix s "/".
Proof.
  intros Hs. destruct s as [|c' s']; [done|].
  unfold HasSuffix. cbn [String.length].
  replace (S (S (String.length s')) - 1)%nat with (S (String.length s'))
    by lia.
  replace (S (String.length s') - 1)%nat with (String.length s') by lia.
  reflexivity.
Qed.

Lemma HasSuffix_slash_no_sep s :
  s ≠ "" → no_sep "/" s = true → HasSuffix s "/" = false.
Proof.
  induction s as [|c s IH]; [done|]. intros _ Hs.
  cbn [no_sep] in Hs. apply andb_true_iff in Hs as [Hc Hs].
  apply negb_true_iff in Hc.
  destruct s as [|c' s'].
  - unfold HasSuffix. cbn. by rewrite Hc.
  - rewrite HasSuffix_slash_cons by done. by apply IH.
Qed.

Lemma HasSuffix_slash_append pre s :
  s ≠ "" → HasSuffix (pre +:+ s) "/" = HasSuffix s "/".
Proof.
  intros Hs. induction pre as [|c pre IH]; [reflexivity|].
  rewrite append_String, HasSuffix_slash_cons; [exact IH|].
  destruct pre; [exact Hs|]. by rewrite append_String.
Qed.

(** A redirect link with an id that is a proper path element is in its
    clean form. *)
Lemma cleanPath_redirect id :
  id ≠ "" → no_sep "/" id = true → id ≠ "." → id ≠ ".." →
  cleanPath ("/redirect/" +:+ id) = "/redirect/" +:+ id.
Proof.
  intros Hne Hid Hdot Hdots. unfold cleanPath.
  change ("/redirect/" +:+ id) with (String "/" ("redirect/" +:+ id)) at 1.
  cbn [Ascii.eqb Bool.eqb].
  change (String "/" ("redirect/" +:+ id)) with ("/redirect/" +:+ id).
  rewrite HasSuffix_slash_append by exact Hne.
  rewrite (HasSuffix_slash_no_sep id Hne Hid). cbn [andb].
  unfold Clean. rewrite (Split_redirect id Hid).
  apply String.eqb_neq in Hne, Hdot, Hdots.
  cbn [clean_elements String.eqb Ascii.eqb Bool.eqb].
  rewrite Hne, Hdot, Hdots. cbn [rev app rooted fold_right].
  by rewrite append_empty_r.
Qed.

(** X9: routes are tried in the order [main] registers them, and the
    manifest route comes before the redirect route.  A redirect link
    [/redirect/{id}] whose id is a proper path element, not empty,
    without a slash, and neither [.] nor [..], is in its clean form and
    is served by the redirect handler, after the middleware of [s.Use]
    and with no credential validated, for every id but one:
    [/redirect/manifest.json] matches [/{apitoken}/manifest.json] first
    and never reaches the redirect handler. *)
Theorem redirect_links_reach_the_redirect_handler Validate id :
  id ≠ "" →
  no_sep "/" id = true →
  id ≠ "." → id ≠ ".." →
  (id ≠ "manifest.json" →
   Subrouter_ServeHTTP Validate s (mkRequest "GET" ("/redirect/" +:+ id))
   = (through_Use ++ [HandlerRun redirectHandler])%list)
  ∧ (id = "manifest.json" →
     runs redirectHandler
       (Subrouter_ServeHTTP Validate s
          (mkRequest "GET" ("/redirect/" +:+ id))) = false).
Proof.
  intros Hne Hid Hdot Hdots. split.
  - intros Hman. unfold Subrouter_ServeHTTP. cbn [path].
    rewrite (cleanPath_redirect id Hne Hid Hdot Hdots), String.eqb_refl.
    unfold serve. cbn [method path s methods routes used].
    rewrite bool_decide_eq_true_2 by (apply list_elem_of_singleton; reflexivity).
    cbn [find_route template handler]. unfold match_path.
    rewrite (Split_redirect id Hid).
    destruct (match_segments (Split "/health" "/") _) eqn:E1;
      [apply match_segments_length in E1; vm_compute in E1; discriminate E1
      |clear E1].
    replace (match_segments (Split "/{apitoken}/manifest.json" "/")
               [""; "redirect"; id])
      with (@None (list (string * string))).
    2:{ replace (Split "/{apitoken}/manifest.json" "/")
          with [""; "{apitoken}"; "manifest.json"] by (vm_compute; reflexivity).
        cbn [match_segments].
        replace (match_segment (parse_segment "manifest.json") id)
          with (@None (list (string * string))).
        - by repeat case_match.
        - cbn [parse_segment match_segment].
          apply not_eq_sym, String.eqb_neq in Hman. by rewrite Hman. }
    destruct (match_segments (Split "/{apitoken}/stream/{type}/{id}.json" "/") _)
      eqn:E3;
      [apply match_segments_length in E3; vm_compute in E3; discriminate E3
      |clear E3].
    replace (Split "/redirect/{id}" "/") with [""; "redirect"; "{id}"]
      by (vm_compute; reflexivity).
    cbn [match_segments].
    replace (parse_segment "{id}") with (Var "id" "") by reflexivity.
    destruct (match_segment_Var "id" id Hne) as [v ->].
    replace (match_segment (parse_segment "") "")
      with (Some (@nil (string * string))) by reflexivity.
    replace (match_segment (parse_segment "redirect") "redirect")
      with (Some (@nil (string * string))) by reflexivity.
    cbn. reflexivity.
  - intros ->. vm_compute. destruct (Validate _); reflexivity.
Qed.

(** A link whose id is [..] is not in its clean form: it is answered
    with a redirect to the root, and neither middleware nor handler
    runs. *)
Lemma unclean_redirect_link_example Validate :
  Subrouter_ServeHTTP Validate s (mkRequest "GET" "/redirect/..")
  = [MovedPermanently "/"]
  ∧ Subrouter_ServeHTTP Validate s (mkRequest "GET" "/redirect/.")
    = [MovedPermanently "/redirect"].
Proof. split; vm_compute; reflexivity. Qed.

End RoutingFacts.

Section RoutingExamples.

Import Router Notions.

Lemma redirect_links_reach_the_redirect_handler_witness :
  Subrouter_ServeHTTP Sample.deny_all s
    (mkRequest "GET" ("/redirect/" +:+ "tt0133093-1080p"))
  = (through_Use ++ [HandlerRun redirectHandler])%list.
Proof.
  destruct (redirect_links_reach_the_redirect_handler Sample.deny_all
              "tt0133093-1080p") as (Hserved & _).
  - discriminate.
  - vm_compute; reflexivity.
  - discriminate.
  - discriminate.
  - apply Hserved. discriminate.
Defined.

End RoutingExamples.

(** * More on startup *)

Section StartupFacts.

Import Main Notions.

Variable ParseInt : string -> option Z.

Lemma startup_exit args ucd d code :
  Flag.Parse ParseInt (snd package_init) args = Flag.Exit code →
  startup ParseInt args ucd d = ExitedAt code.
Proof.
  unfold startup. destruct package_init. cbn [snd]. intros ->. reflexivity.
Qed.

Lemma cut_equals_plain s :
  no_sep "=" s = true → Flag.cut_equals s = (s, None).
Proof.
  induction s as [|c s IH]; cbn [Flag.cut_equals no_sep]; [reflexivity|].
  intros H. apply andb_true_iff in H as [Hc Hs]. apply negb_true_iff in Hc.
  rewrite Hc, (IH Hs). reflexivity.
Qed.

Lemma formal_undefined name :
  name ∉ defined_flags →
  Flag.formal (snd package_init) !! name = None.
Proof.
  intros Hn. unfold package_init, Flag.String, Flag.Int, Flag.define.
  cbn [snd Flag.formal]. unfold defined_flags in Hn.
  rewrite !elem_of_cons, elem_of_nil in Hn.
  rewrite !lookup_insert_ne by (intros E; apply Hn; rewrite <- E; auto 10).
  apply lookup_empty.
Qed.

(** X10: the values of the integer flags are checked although they are
    never used.  A value for [-port] or [-cacheMaxBytes] that does not
    parse as an integer, given as the next argument or after ['='],
    makes the process exit with status 2 in [flag.Parse], before any
    cache is loaded. *)
Theorem unparsable_integer_flag_exits name v rest ucd d :
  name = "port" ∨ name = "cacheMaxBytes" →
  ParseInt v = None →
  startup ParseInt (("-" +:+ name) :: v :: rest) ucd d = ExitedAt 2
  ∧ startup ParseInt (("-" +:+ name +:+ "=" +:+ v) :: rest) ucd d = ExitedAt 2.
Proof.
  intros Hname Hv.
  split; apply startup_exit; unfold Flag.Parse;
    cbn [List.length Flag.Parse_loop].
  - replace (Flag.parseOne ParseInt package_init.2
               (("-" +:+ name) :: v :: rest)) with Flag.Failf; [reflexivity|].
    destruct Hname as [-> | ->]; vm_compute; rewrite Hv; reflexivity.
  - replace (Flag.parseOne ParseInt package_init.2
               (("-" +:+ name +:+ "=" +:+ v) :: rest)) with Flag.Failf;
      [reflexivity|].
    destruct Hname as [-> | ->]; vm_compute; rewrite Hv; reflexivity.
Qed.

(** X11: a flag that [main.go] does not define stops the process.  For
    every name other than the five defined ones and the two spellings of
    help, the argument [-name], whatever follows it, makes the process
    exit with status 2 in [flag.Parse], before any cache is loaded. *)
Theorem undefined_flag_exits name rest ucd d :
  plain_name name = true →
  name ∉ defined_flags →
  name ≠ "help" → name ≠ "h" →
  startup ParseInt (("-" +:+ name) :: rest) ucd d = ExitedAt 2.
Proof.
  intros Hp Hn Hhelp Hh. apply startup_exit.
  unfold Flag.Parse. cbn [List.length Flag.Parse_loop].
  replace (Flag.parseOne ParseInt package_init.2 (("-" +:+ name) :: rest))
    with Flag.Failf; [reflexivity|].
  destruct name as [|c r]; [discriminate|]. cbn [plain_name no_sep] in Hp.
  apply andb_true_iff in Hp as [Hminus Hp].
  apply andb_true_iff in Hp as [Heq Hr].
  apply negb_true_iff in Hminus, Heq.
  change ("-" +:+ String c r) with (String "-" (String c r)).
  unfold Flag.parseOne. rewrite Hminus. cbn [andb orb]. rewrite Heq.
  unfold Flag.name_and_value. rewrite (cut_equals_plain r Hr).
  rewrite (formal_undefined _ Hn).
  apply String.eqb_neq in Hhelp, Hh. rewrite Hhelp, Hh.
  cbn [orb]. rewrite ?Hminus, ?Heq. reflexivity.
Qed.

End StartupFacts.

Section StartupExamples.

Import Main Notions.

Lemma unparsable_integer_flag_exits_witness :
  startup Sample.ParseDecimal ["-port"; "http"] (Some Sample.home)
    Sample.empty_disk = ExitedAt 2.
Proof.
  destruct (unparsable_integer_flag_exits Sample.ParseDecimal "port" "http" []
              (Some Sample.home) Sample.empty_disk) as (H & _).
  - left. reflexivity.
  - vm_compute. reflexivity.
  - exact H.
Defined.

Lemma undefined_flag_exits_witness :
  startup Sample.ParseDecimal ["-bindaddr"; "0.0.0.0"] (Some Sample.home)
    Sample.empty_disk = ExitedAt 2.
Proof.
  apply (undefined_flag_exits Sample.ParseDecimal "bindaddr" ["0.0.0.0"]).
  - vm_compute. reflexivity.
  - unfold defined_flags. rewrite !elem_of_cons, elem_of_nil.
    intros [H|[H|[H|[H|[H|[]]]]]]; discriminate H.
  - discriminate.
  - discriminate.
Defined.

End StartupExamples.
